(** * CoinPulse: the typed fetch client and the table primitives

    A shallow embedding of [src/lib/utils.ts] (the server action
    [fetcher] with the module-level configuration checks that precede
    it) and of [src/components/ui/table.tsx] (the eight table
    primitives), together with the parts of the JavaScript runtime and
    of the [query-string] package that [fetcher] calls.  Beside them:
    [formatCurrency] of [src/lib/utils.ts], and of the component
    [TrendingCoin] the call of [fetcher] and the rows it hands to the
    table.

    Conventions.
    - A JavaScript string is a [string]: its UTF-8 bytes.  Only a
      well-formed string has them.  A string with a lone surrogate,
      on which [encodeURIComponent] throws a [URIError], is not a
      value of the model: what is proved of the URL is proved of
      strings that are well-formed ([Unicode.well_formed]).  Percent
      encoding works byte by byte, which is what [encodeURIComponent]
      does on a well-formed string; the order of two strings is the
      order of their UTF-16 code units ([Unicode.units]), which is
      what the runtime compares.
    - A JavaScript object used as a dictionary is a [gmap string _].
    - The [number] type is kept abstract behind the class [JSNumber]:
      the development never looks inside a double, it only prints it,
      tests its truthiness and writes the literal [60].
    - An [async] function is a value of [Async]: a tree whose only
      effect node is one call of the global [fetch].  A transport
      answers the calls; [run] returns the requests issued and the
      settled outcome of the promise. *)

From Stdlib Require Import Ascii String.
From stdpp Require Import base option list strings gmap fin_maps sorting pretty.

Set Default Proof Using "Type".
#[global] Set Warnings "-register-all".
Open Scope string_scope.

(** ** Strings *)

Module Str.

(** [s.includes(c)] for a single character. *)
Fixpoint occurs (c : ascii) (s : string) : bool :=
  match s with
  | EmptyString => false
  | String d s' => if decide (d = c) then true else occurs c s'
  end.

(** [s.split(sep)] for a single-character separator: never empty. *)
Fixpoint split_on (sep : ascii) (s : string) : list string :=
  match s with
  | EmptyString => [EmptyString]
  | String c s' =>
      if decide (c = sep) then EmptyString :: split_on sep s'
      else match split_on sep s' with
           | x :: xs => String c x :: xs
           | [] => [String c EmptyString]
           end
  end.

(** The text before the first [c] (everything when there is none):
    [s.split(c)[0]], and [s.slice(0, s.indexOf(c))] when [c] occurs. *)
Fixpoint before (c : ascii) (s : string) : string :=
  match s with
  | EmptyString => EmptyString
  | String d s' => if decide (d = c) then EmptyString else String d (before c s')
  end.

(** The text from the first [c] on, [c] included, and the empty string
    when there is none: [i === -1 ? '' : s.slice(i)]. *)
Fixpoint from (c : ascii) (s : string) : string :=
  match s with
  | EmptyString => EmptyString
  | String d s' => if decide (d = c) then s else from c s'
  end.

(** The text after the first [c], and the empty string when there is
    none: [i === -1 ? '' : s.slice(i + 1)]. *)
Definition after (c : ascii) (s : string) : string :=
  match from c s with
  | EmptyString => EmptyString
  | String _ rest => rest
  end.

(** [hay] contains [needle] as a substring. *)
Definition contains (needle hay : string) : Prop :=
  ∃ pre post, hay = pre +:+ needle +:+ post.

End Str.

(** ** Code units *)

Module Unicode.

(** A continuation byte of UTF-8: [10xxxxxx]. *)
Definition continuation (b : ascii) : bool :=
  let n := N_of_ascii b in (128 <=? n)%N && (n <=? 191)%N.

(** The six payload bits of a continuation byte. *)
Definition low6 (b : ascii) : N := (N_of_ascii b mod 64)%N.

(** The UTF-16 code units of a code point: itself below U+10000, a
    high and a low surrogate from there on. *)
Definition units_of_code_point (cp : N) : list N :=
  if (cp <? 65536)%N then [cp]
  else [55296 + (cp - 65536) / 1024; 56320 + (cp - 65536) mod 1024]%N.

(** The UTF-16 code units of a string, decoded from its UTF-8 bytes:
    what [charCodeAt] reads and what [<] on strings compares.  A byte
    that starts no sequence stands for itself (no string of the
    runtime has such bytes). *)
Fixpoint units (s : string) : list N :=
  match s with
  | EmptyString => []
  | String b0 s1 =>
      let n0 := N_of_ascii b0 in
      if (n0 <? 128)%N then n0 :: units s1
      else if (n0 <? 192)%N then n0 :: units s1
      else if (n0 <? 224)%N then
        match s1 with
        | String b1 s2 =>
            if continuation b1
            then ((n0 mod 32) * 64 + low6 b1)%N :: units s2
            else n0 :: units s1
        | EmptyString => [n0]
        end
      else if (n0 <? 240)%N then
        match s1 with
        | String b1 (String b2 s3) =>
            if continuation b1 && continuation b2
            then ((n0 mod 16) * 4096 + low6 b1 * 64 + low6 b2)%N :: units s3
            else n0 :: units s1
        | _ => n0 :: units s1
        end
      else if (n0 <? 248)%N then
        match s1 with
        | String b1 (String b2 (String b3 s4)) =>
            if continuation b1 && continuation b2 && continuation b3
            then units_of_code_point
                   ((n0 mod 8) * 262144 + low6 b1 * 4096 + low6 b2 * 64 + low6 b3)%N
                 ++ units s4
            else n0 :: units s1
        | _ => n0 :: units s1
        end
      else n0 :: units s1
  end.

(** The order of two sequences of code units: the first difference
    decides, and a proper prefix comes first. *)
Fixpoint units_leb (a b : list N) : bool :=
  match a, b with
  | [], _ => true
  | _ :: _, [] => false
  | x :: a', y :: b' =>
      if (x <? y)%N then true
      else if (y <? x)%N then false
      else units_leb a' b'
  end.

(** The bytes are the UTF-8 of a string of the runtime: shortest
    forms only, no surrogate (a surrogate has no UTF-8 form, so a
    string with a lone one has no bytes), nothing beyond U+10FFFF. *)
Fixpoint well_formed (s : string) : bool :=
  match s with
  | EmptyString => true
  | String b0 s1 =>
      let n0 := N_of_ascii b0 in
      if (n0 <? 128)%N then well_formed s1
      else if (n0 <? 194)%N then false
      else if (n0 <? 224)%N then
        match s1 with
        | String b1 s2 => continuation b1 && well_formed s2
        | EmptyString => false
        end
      else if (n0 <? 240)%N then
        match s1 with
        | String b1 (String b2 s3) =>
            let n1 := N_of_ascii b1 in
            continuation b1 && continuation b2
            && (if (n0 =? 224)%N then (160 <=? n1)%N
                else if (n0 =? 237)%N then (n1 <=? 159)%N
                else true)
            && well_formed s3
        | _ => false
        end
      else if (n0 <? 245)%N then
        match s1 with
        | String b1 (String b2 (String b3 s4)) =>
            let n1 := N_of_ascii b1 in
            continuation b1 && continuation b2 && continuation b3
            && (if (n0 =? 240)%N then (144 <=? n1)%N
                else if (n0 =? 244)%N then (n1 <=? 143)%N
                else true)
            && well_formed s4
        | _ => false
        end
      else false
  end.

End Unicode.

(** ** Percent encoding *)

Module Uri.

Definition in_range (lo hi : N) (c : ascii) : bool :=
  let n := N_of_ascii c in (lo <=? n)%N && (n <=? hi)%N.

Definition alphanumeric (c : ascii) : bool :=
  in_range 48 57 c || in_range 65 90 c || in_range 97 122 c.

(** The characters [encodeURIComponent] leaves alone:
    [A-Z a-z 0-9 - _ . ! ~ * ' ( )]. *)
Definition uri_unescaped (c : ascii) : bool :=
  alphanumeric c
  || bool_decide (c ∈ ["-"; "_"; "."; "!"; "~"; "*"; "'"; "("; ")"]%char).

Definition hex_digit (n : N) : ascii :=
  ascii_of_N (if (n <? 10)%N then 48 + n else 55 + n).

(** [%XX] with upper-case hexadecimal digits. *)
Definition percent (c : ascii) : string :=
  let n := N_of_ascii c in
  String "%" (String (hex_digit (n / 16)) (String (hex_digit (n mod 16)) EmptyString)).

(** [encodeURIComponent] on the bytes of a well-formed string: each
    byte kept or escaped.  (On a string with a lone surrogate the
    runtime throws a [URIError]; such a string has no bytes here.) *)
Fixpoint encodeURIComponent (s : string) : string :=
  match s with
  | EmptyString => EmptyString
  | String c s' =>
      (if uri_unescaped c then String c EmptyString else percent c)
      +:+ encodeURIComponent s'
  end.

(** [x.replaceAll(/[!'()*]/g, c => '%' + hex(c))]. *)
Fixpoint escape_sub_delims (s : string) : string :=
  match s with
  | EmptyString => EmptyString
  | String c s' =>
      (if bool_decide (c ∈ ["!"; "'"; "("; ")"; "*"]%char) then percent c
       else String c EmptyString)
      +:+ escape_sub_delims s'
  end.

(** [strict-uri-encode], which [query-string] applies to keys and to
    values under its default options [encode: true, strict: true]. *)
Definition strictUriEncode (s : string) : string :=
  escape_sub_delims (encodeURIComponent s).

(** What [strictUriEncode] makes of one character: itself when it is
    alphanumeric or one of [- _ . ~], its escape otherwise. *)
Definition encode_char (c : ascii) : string :=
  if uri_unescaped c && negb (bool_decide (c ∈ ["!"; "'"; "("; ")"; "*"]%char))
  then String c EmptyString else percent c.

(** The value of a hexadecimal digit, and the character of an
    escape. *)
Definition hex_value (d : ascii) : N :=
  let n := N_of_ascii d in if (n <? 58)%N then n - 48 else n - 55.

Definition unpercent (escape : string) : ascii :=
  match escape with
  | String _ (String hi (String lo _)) => ascii_of_N (16 * hex_value hi + hex_value lo)
  | _ => zero
  end.

End Uri.

(** ** Numbers *)

(** What the development needs of the runtime's [number] type. *)
Class JSNumber (number : Type) := {
  (** [String(n)], also the conversion a template literal applies *)
  number_to_string : number → string;
  (** [Boolean(n)]: false exactly for [0], [-0] and [NaN] *)
  number_truthy : number → bool;
  (** the value of an integer literal *)
  number_of_Z : Z → number;
}.

(** The integers, printed in decimal, are an instance (the runtime
    prints an integral double of magnitude below 1e21 that way). *)
#[global] Instance Z_JSNumber : JSNumber Z := {|
  number_to_string := pretty;
  number_truthy z := bool_decide (z ≠ 0%Z);
  number_of_Z z := z;
|}.

(** ** The [query-string] package

    [fetcher] builds its URL with [qs.stringifyUrl].  The package is a
    dependency, not a file of the repository; its [stringify] and
    [stringifyUrl] are transcribed here for the options [fetcher]
    passes ([skipEmptyString], [skipNull]) and the defaults it leaves
    alone ([encode], [strict], [arrayFormat: 'none'], sorted keys). *)

Section QueryString.
Context {number : Type} `{!JSNumber number}.

(** A value of [QueryParams]: a string, a number, a boolean, [null]
    or [undefined]. *)
Inductive param :=
  | PUndefined
  | PNull
  | PString (s : string)
  | PNumber (n : number)
  | PBoolean (b : bool).

(** A value of the query object [stringify] receives: a caller's
    scalar, or what [parse] makes of a key repeated in the URL, an
    array of strings and [null]s. *)
Inductive qvalue :=
  | QScalar (p : param)
  | QArray (items : list (option string)).

(** [String(p)], the conversion [encodeURIComponent] applies first. *)
Definition param_to_string (p : param) : string :=
  match p with
  | PUndefined => "undefined"
  | PNull => "null"
  | PString s => s
  | PNumber n => number_to_string n
  | PBoolean b => if b then "true" else "false"
  end.

Record StringifyOptions := {
  skipEmptyString : bool;
  skipNull : bool;
}.

Definition isNullOrUndefined (v : qvalue) : bool :=
  match v with
  | QScalar PNull | QScalar PUndefined => true
  | _ => false
  end.

Definition isEmptyString (v : qvalue) : bool :=
  match v with
  | QScalar (PString s) => bool_decide (s = "")
  | _ => false
  end.

(** [shouldFilter]: the entries [stringify] drops before anything
    else. *)
Definition shouldFilter (options : StringifyOptions) (v : qvalue) : bool :=
  (skipNull options && isNullOrUndefined v)
  || (skipEmptyString options && isEmptyString v).

(** [encode(value, options)] under [encode: true, strict: true]. *)
Definition encode_component (s : string) : string := Uri.strictUriEncode s.

(** The reducer of [arrayFormat: 'none'], one array item at a time. *)
Definition array_formatter (options : StringifyOptions) (key : string)
    (result : list string) (item : option string) : list string :=
  match item with
  | None =>
      if skipNull options then result
      else result ++ [encode_component key]
  | Some s =>
      if skipEmptyString options && bool_decide (s = "") then result
      else result ++ [encode_component key +:+ "=" +:+ encode_component s]
  end.

(** The text of one key, from the value the object holds for it. *)
Definition stringify_key (options : StringifyOptions) (key : string)
    (value : option qvalue) : string :=
  match value with
  | None | Some (QScalar PUndefined) => ""
  | Some (QScalar PNull) => encode_component key
  | Some (QArray items) =>
      String.concat "&" (foldl (array_formatter options key) [] items)
  | Some (QScalar p) =>
      encode_component key +:+ "=" +:+ encode_component (param_to_string p)
  end.

(** The order of [Array.prototype.sort] without a comparator, on
    strings: lexicographic on UTF-16 code units.  A character beyond
    U+FFFF, whose first unit is a surrogate, so comes before one in
    U+E000..U+FFFF, though its bytes come after. *)
Definition key_le (a b : string) : Prop :=
  Unicode.units_leb (Unicode.units a) (Unicode.units b) = true.

#[global] Instance key_le_dec : RelDecision key_le.
Proof. intros a b. unfold key_le. apply _. Defined.

Definition stringify (options : StringifyOptions)
    (object : gmap string qvalue) : string :=
  let objectCopy := filter (λ kv, shouldFilter options kv.2 = false) object in
  let keys := merge_sort key_le (map_to_list objectCopy).*1 in
  String.concat "&"
    (filter (λ x, x ≠ "")
       (map (λ key, stringify_key options key (object !! key)) keys)).

(** [parse] of the query already present in the URL.  An empty query
    gives the empty object; the decoding of a non-empty one is the
    package's business and stays a parameter. *)
Class QueryParser := parse_nonempty : string → gmap string qvalue.

Definition parse {query_parser : QueryParser} (query : string) : gmap string qvalue :=
  if decide (query = "") then ∅ else parse_nonempty query.

Definition removeHash (input : string) : string := Str.before "#" input.
Definition getHash (url : string) : string := Str.from "#" url.
Definition extract (input : string) : string := Str.after "?" (removeHash input).

(** [stringifyUrl({url, query}, options)], with no
    [fragmentIdentifier]. *)
Definition stringifyUrl {query_parser : QueryParser} (options : StringifyOptions)
    (input : string) (query : option (gmap string param)) : string :=
  let url := Str.before "?" (removeHash input) in
  let queryFromUrl := extract input in
  let query := (QScalar <$> default ∅ query) ∪ parse queryFromUrl in
  let queryString := stringify options query in
  let queryString :=
    if decide (queryString = "") then "" else "?" +:+ queryString in
  let hash := getHash input in
  url +:+ queryString +:+ hash.

End QueryString.

Arguments param : clear implicits.
Arguments qvalue : clear implicits.
Arguments QueryParser : clear implicits.

(** ** Values, exceptions and responses *)

(** What a rejected promise carries: an [Error] made by the program,
    with its message, or an error of the runtime ([SyntaxError] from a
    body that is not JSON, [TypeError] from a property read on [null],
    from an object that cannot be turned into text, or from a request
    that could not be made). *)
Inductive Exception :=
  | Error (message : string)
  | SyntaxError
  | TypeError.

Section Runtime.
Context {number : Type} `{!JSNumber number}.

(** The values [JSON.parse] produces. *)
Inductive JSON :=
  | JNull
  | JBoolean (b : bool)
  | JNumber (n : number)
  | JString (s : string)
  | JArray (items : list JSON)
  | JObject (fields : gmap string JSON).

(** [errorBody.error]: [None] is [undefined].  Reading a property of
    [null] throws; a string, number, boolean or array has no [error]
    property. *)
Definition get_error (errorBody : JSON) : Exception + option JSON :=
  match errorBody with
  | JNull => inl TypeError
  | JObject fields => inr (fields !! "error")
  | _ => inr None
  end.

(** [Boolean(v)], which decides [v || other]. *)
Definition truthy (v : option JSON) : bool :=
  match v with
  | None | Some JNull => false
  | Some (JBoolean b) => b
  | Some (JNumber n) => number_truthy n
  | Some (JString s) => negb (bool_decide (s = ""))
  | Some (JArray _) | Some (JObject _) => true
  end.

(** [String(v)], the conversion of a template literal; [None] when it
    throws a [TypeError].  An array joins its items with commas,
    [null] items as empty text.  An object prints as
    [[object Object]] through the [toString] it inherits; an object
    with a [toString] field of its own has, after [JSON.parse], a
    value there that cannot be called, and its conversion throws. *)
Fixpoint to_string (v : JSON) : option string :=
  match v with
  | JNull => Some "null"
  | JBoolean b => Some (if b then "true" else "false")
  | JNumber n => Some (number_to_string n)
  | JString s => Some s
  | JArray items =>
      String.concat ","
        <$> mapM (λ item, match item with JNull => Some "" | _ => to_string item end)
                 items
  | JObject fields =>
      match fields !! "toString" with
      | Some _ => None
      | None => Some "[object Object]"
      end
  end.

(** [a || b] inside the template literal, as text; the conversion of
    a truthy [a] may throw. *)
Definition or_else (a : option JSON) (b : string) : Exception + string :=
  match a with
  | Some v =>
      if truthy a then
        match to_string v with
        | Some text => inr text
        | None => inl TypeError
        end
      else inr b
  | None => inr b
  end.

(** A [Response]: the status line, and what [response.json()] settles
    to ([None]: the body is not JSON and the promise rejects). *)
Record Response := {
  status : N;
  statusText : string;
  body_json : option JSON;
}.

(** [response.ok]: the status is in the range 200..299. *)
Definition ok (response : Response) : bool :=
  bool_decide (200 ≤ status response ≤ 299)%N.

(** The second argument of [fetch], as [fetcher] fills it. *)
Record RequestInit := {
  init_method : option string;
  init_headers : gmap string string;
  init_next_revalidate : number;
}.

(** The method of the request [fetch] makes: [GET] unless the init
    names another. *)
Definition request_method (init : RequestInit) : string :=
  default "GET" (init_method init).

(** ** Promises *)

(** An asynchronous computation: settled, or waiting on one [fetch]
    whose answer (a response, or the rejection of the request) it
    continues with. *)
Inductive Async (A : Type) :=
  | Resolve (a : A)
  | Reject (e : Exception)
  | Fetch (url : string) (init : RequestInit)
      (k : Exception + Response → Async A).
Arguments Resolve {A} a.
Arguments Reject {A} e.
Arguments Fetch {A} url init k.

Fixpoint Async_bind {A B} (f : A → Async B) (m : Async A) : Async B :=
  match m with
  | Resolve a => f a
  | Reject e => Reject e
  | Fetch url init k => Fetch url init (λ r, Async_bind f (k r))
  end.

#[global] Instance Async_ret : MRet Async := λ A a, Resolve a.
#[global] Instance Async_mbind : MBind Async := λ A B f m, Async_bind f m.

(** [promise.catch(handler)]. *)
Fixpoint catch {A} (m : Async A) (handler : Exception → Async A) : Async A :=
  match m with
  | Resolve a => Resolve a
  | Reject e => handler e
  | Fetch url init k => Fetch url init (λ r, catch (k r) handler)
  end.

Definition throw {A} (e : Exception) : Async A := Reject e.

(** [await fetch(url, init)]. *)
Definition fetch (url : string) (init : RequestInit) : Async Response :=
  Fetch url init (λ r, match r with inl e => Reject e | inr response => Resolve response end).

(** [response.json()]. *)
Definition json (response : Response) : Async JSON :=
  match body_json response with
  | Some v => Resolve v
  | None => Reject SyntaxError
  end.

(** Reading [errorBody.error] inside an [async] body: a throw rejects
    the promise. *)
Definition read_error (errorBody : JSON) : Async (option JSON) :=
  match get_error errorBody with
  | inl e => Reject e
  | inr v => Resolve v
  end.

(** An expression inside an [async] body: its value, or its throw as
    the rejection of the promise. *)
Definition evaluate {A} (result : Exception + A) : Async A :=
  match result with
  | inl e => Reject e
  | inr a => Resolve a
  end.

(** The network: what each call of [fetch] is answered with. *)
Definition Transport : Type := string → RequestInit → Exception + Response.

(** Runs a computation against a transport: the calls of [fetch] it
    made, oldest first, and how its promise settled. *)
Fixpoint run {A} (transport : Transport) (m : Async A)
    : list (string * RequestInit) * (Exception + A) :=
  match m with
  | Resolve a => ([], inr a)
  | Reject e => ([], inl e)
  | Fetch url init k =>
      let '(calls, outcome) := run transport (k (transport url init)) in
      ((url, init) :: calls, outcome)
  end.

(** ** [src/lib/utils.ts], the [use server] part *)

(** The two module constants, once the checks of lines 54 and 55 have
    let the module load. *)
Record Config := {
  BASE_URL : string;
  API_KEY : string;
}.

(** [!value] for a [string | undefined]. *)
Definition missing (value : option string) : bool :=
  match value with
  | None => true
  | Some s => bool_decide (s = "")
  end.

(** Lines 51 to 55: reading [process.env] when the module is loaded. *)
Definition load_config (env : gmap string string) : Exception + Config :=
  let BASE_URL := env !! "COINGECKO_BASE_URL" in
  let API_KEY := env !! "COINGECKO_API_KEY" in
  if missing BASE_URL then inl (Error "Could not get base url")
  else if missing API_KEY then inl (Error "Could not get api key")
  else inr {| BASE_URL := default "" BASE_URL; API_KEY := default "" API_KEY |}.

Context {query_parser : QueryParser number}.

(** The URL [fetcher] asks for. *)
Definition fetcher_url (config : Config) (endPoint : string)
    (params : option (gmap string (param number))) : string :=
  stringifyUrl {| skipEmptyString := true; skipNull := true |}
    (BASE_URL config +:+ "/" +:+ endPoint) params.

(** The init [fetcher] passes to [fetch]. *)
Definition fetcher_init (config : Config) (revalidate : number) : RequestInit :=
  {| init_method := None;
     init_headers :=
       {[ "x-cg-demo-api-key" := API_KEY config;
          "Content-Type" := "application/json" ]};
     init_next_revalidate := revalidate |}.

(** Lines 66 to 88.  [params] and [revalidate] are optional: [None] is
    an argument left out (or [undefined]). *)
Definition fetcher (config : Config) (endPoint : string)
    (params : option (gmap string (param number)))
    (revalidate : option number) : Async JSON :=
  let revalidate := default (number_of_Z 60) revalidate in
  let url := fetcher_url config endPoint params in
  response ← fetch url (fetcher_init config revalidate);
  if negb (ok response) then
    errorBody ← catch (json response) (λ _, Resolve (JObject ∅));
    error ← read_error errorBody;
    text ← evaluate (or_else error (statusText response));
    throw (Error ("API Error: " +:+ pretty (status response) +:+ ": " +:+ text))
  else
    json response.

(** Loading the module: it throws, or it exports [fetcher] closed over
    its two constants. *)
Definition load_module (env : gmap string string)
    : Exception + (string → option (gmap string (param number)) → option number → Async JSON) :=
  match load_config env with
  | inl e => inl e
  | inr config => inr (fetcher config)
  end.

End Runtime.

Arguments JSON : clear implicits.
Arguments Response : clear implicits.
Arguments RequestInit : clear implicits.
Arguments Async : clear implicits.
Arguments Transport : clear implicits.

(** ** [src/components/ui/table.tsx] *)

Section TablePrimitives.
Context {value : Type}.

(** What a prop can hold and what a component returns: a string, an
    element (its type and its props, [children] among them), or any
    other value of the caller's, which the primitives only pass on. *)
Inductive Node :=
  | NString (s : string)
  | NOther (v : value)
  | NElement (type : string) (props : gmap string Node).

(** [cn] of [src/lib/utils.ts], lines 10 to 12: [twMerge(clsx(inputs))]
    of the component's own classes and the caller's [className]
    ([None]: [undefined]).  Both packages are dependencies; what they
    make of the two inputs stays a parameter. *)
Variable cn : string → option Node → string.

(** Each primitive destructures [{ className, ...props }] and returns
    one element: [data-slot] and [className] are written first, the
    remaining props are spread after them, so a prop of the same name
    replaces what was written. *)

Definition Table (allProps : gmap string Node) : Node :=
  let className := allProps !! "className" in
  let props := delete "className" allProps in
  NElement "div"
    {[ "data-slot" := NString "table-container";
       "className" := NString "relative w-full overflow-x-auto";
       "children" :=
         NElement "table"
           (props ∪
            {[ "data-slot" := NString "table";
               "className" := NString (cn "w-full caption-bottom text-sm" className) ]}) ]}.

Definition TableHeader (allProps : gmap string Node) : Node :=
  let className := allProps !! "className" in
  let props := delete "className" allProps in
  NElement "thead"
    (props ∪
     {[ "data-slot" := NString "table-header";
        "className" := NString (cn "[&_tr]:border-b" className) ]}).

Definition TableBody (allProps : gmap string Node) : Node :=
  let className := allProps !! "className" in
  let props := delete "className" allProps in
  NElement "tbody"
    (props ∪
     {[ "data-slot" := NString "table-body";
        "className" := NString (cn "[&_tr:last-child]:border-0" className) ]}).

Definition TableFooter (allProps : gmap string Node) : Node :=
  let className := allProps !! "className" in
  let props := delete "className" allProps in
  NElement "tfoot"
    (props ∪
     {[ "data-slot" := NString "table-footer";
        "className" :=
          NString (cn "bg-muted/50 border-t font-medium [&>tr]:last:border-b-0" className) ]}).

Definition TableRow (allProps : gmap string Node) : Node :=
  let className := allProps !! "className" in
  let props := delete "className" allProps in
  NElement "tr"
    (props ∪
     {[ "data-slot" := NString "table-row";
        "className" :=
          NString (cn "hover:bg-muted/50 data-[state=selected]:bg-muted border-b transition-colors"
                      className) ]}).

Definition TableHead (allProps : gmap string Node) : Node :=
  let className := allProps !! "className" in
  let props := delete "className" allProps in
  NElement "th"
    (props ∪
     {[ "data-slot" := NString "table-head";
        "className" :=
          NString (cn "text-foreground h-10 px-2 text-left align-middle font-medium whitespace-nowrap [&:has([role=checkbox])]:pr-0 [&>[role=checkbox]]:translate-y-[2px]"
                      className) ]}).

Definition TableCell (allProps : gmap string Node) : Node :=
  let className := allProps !! "className" in
  let props := delete "className" allProps in
  NElement "td"
    (props ∪
     {[ "data-slot" := NString "table-cell";
        "className" :=
          NString (cn "p-2 align-middle whitespace-nowrap [&:has([role=checkbox])]:pr-0 [&>[role=checkbox]]:translate-y-[2px]"
                      className) ]}).

Definition TableCaption (allProps : gmap string Node) : Node :=
  let className := allProps !! "className" in
  let props := delete "className" allProps in
  NElement "caption"
    (props ∪
     {[ "data-slot" := NString "table-caption";
        "className" := NString (cn "text-muted-foreground mt-4 text-sm" className) ]}).

(** [element] is one element of type [tag] whose props are the
    caller's, [className] apart, with [className] the merge of
    [classes] and the caller's, and with [data-slot] written as [slot]
    where the caller passed none. *)
Definition slot_element (tag slot classes : string)
    (allProps : gmap string Node) (element : Node) : Prop :=
  ∃ props,
    element = NElement tag props
    ∧ props !! "className" = Some (NString (cn classes (allProps !! "className")))
    ∧ props !! "data-slot" = Some (default (NString slot) (allProps !! "data-slot"))
    ∧ ∀ name, name ≠ "className" → name ≠ "data-slot" →
        props !! name = allProps !! name.

End TablePrimitives.

Arguments Node : clear implicits.

(** A [cn] without conflicts between classes: the two class lists
    side by side. *)
Definition cn_plain {value} (classes : string) (className : option (Node value)) : string :=
  match className with
  | Some (NString extra) => classes +:+ " " +:+ extra
  | _ => classes
  end.

(** ** The declarative table renderer *)

Module DataTable.
Section Render.
Context {row content key : Type}.

(** A column descriptor: the [DataTableColumn] the callers build
    ([TrendingCoin] passes [header], [cell] and [cellClassName]). *)
Record Column := {
  header : content;
  cell : row → content;
  headerClassName : option string;
  cellClassName : option string;
}.

Record BodyRow := {
  row_identity : key;
  row_cells : list content;
}.

Record Output := {
  header_cells : list content;
  body_rows : list BodyRow;
}.

(** Modelled from the spec: the [DataTable] component (imported from
    [@/components/DataTable] by the callers) is not among the
    sources.  Section 4.3: the header row is produced once, one cell
    per column carrying that column's [header]; each row, in input
    order, gives one output row identified by [rowIdentity(row)] with
    one cell per column, in column order, holding [cell(row)]. *)
Definition render (rows : list row) (columns : list Column)
    (rowIdentity : row → key) : Output :=
  {| header_cells := map header columns;
     body_rows :=
       map (λ r, {| row_identity := rowIdentity r;
                    row_cells := map (λ column, cell column r) columns |})
           rows |}.

End Render.
Arguments Column : clear implicits.
Arguments BodyRow : clear implicits.
Arguments Output : clear implicits.
End DataTable.

(** ** Vocabulary of the specification *)

Section Vocabulary.
Context {number : Type} `{!JSNumber number}.

(** [encode(P)]: the query text [fetcher] derives from its [params]. *)
Definition encode (P : gmap string (param number)) : string :=
  stringify {| skipEmptyString := true; skipNull := true |} (QScalar <$> P).

(** A value the encoding leaves out: [null], [undefined] or the empty
    string. *)
Definition omitted (p : param number) : bool :=
  match p with
  | PUndefined | PNull => true
  | PString s => bool_decide (s = "")
  | _ => false
  end.

(** [key=value], both percent-encoded, the value stringified first. *)
Definition pair_text (key : string) (p : param number) : string :=
  encode_component key +:+ "=" +:+ encode_component (param_to_string p).

(** The entries the encoding keeps. *)
Definition kept (P : gmap string (param number)) : gmap string (param number) :=
  filter (λ kv, omitted kv.2 = false) P.

(** The two characters that structure a query text. *)
Definition delimiter (d : ascii) : Prop := d = "&"%char ∨ d = "="%char.

(** The key of a pair, still encoded: the text before its [=]. *)
Definition pair_key (pair : string) : string := Str.before "=" pair.

(** The pairs of a query text: its pieces between [&], none for the
    empty text. *)
Definition segments (query : string) : list string :=
  if decide (query = "") then [] else Str.split_on "&" query.

(** Parameters [encodeURIComponent] accepts: the name and the
    stringified value of every entry that is not left out are
    well-formed strings. *)
Definition encodable (P : gmap string (param number)) : Prop :=
  ∀ key p, P !! key = Some p → omitted p = false →
    Unicode.well_formed key = true
    ∧ Unicode.well_formed (param_to_string p) = true.

(** A URL with neither a query nor a fragment of its own. *)
Definition plain (url : string) : Prop :=
  Str.occurs "?" url = false ∧ Str.occurs "#" url = false.

(** The message format of [fetcher]'s docstring:
    [API Error: {status}: {text}]. *)
Definition api_error (response : Response number) (text : string) : Exception :=
  Error ("API Error: " +:+ pretty (status response) +:+ ": " +:+ text).

(** How a call of [fetcher] settles, from the response the transport
    answered with. *)
Definition settle (response : Response number) : Exception + JSON number :=
  if ok response then
    match body_json response with
    | Some v => inr v
    | None => inl SyntaxError
    end
  else
    match body_json response with
    | Some JNull => inl TypeError
    | Some (JObject fields) =>
        match or_else (fields !! "error") (statusText response) with
        | inl e => inl e
        | inr text => inl (api_error response text)
        end
    | _ => inl (api_error response (statusText response))
    end.

End Vocabulary.

(** ** Fixtures for the worked examples *)

(** The examples run at the integers, against URLs that carry no
    query of their own, so the package's [parse] is never consulted
    beyond the empty query. *)
Definition no_url_query : QueryParser Z := λ _, ∅.

Definition demo_config : Config :=
  {| BASE_URL := "https://api.coingecko.com/api/v3"; API_KEY := "CG-demo" |}.

(** A transport that answers every request with [response]. *)
Definition answering (response : Response Z) : Transport Z :=
  λ _ _, inr response.

(** The call [TrendingCoin] makes:
    [fetcher('/search/trending', undefined, 300)]. *)
Definition trending : Async Z (JSON Z) :=
  fetcher (query_parser := no_url_query) demo_config "/search/trending" None (Some 300%Z).


(** ** [src/lib/utils.ts], [formatCurrency] *)

Section FormatCurrency.
Context {number : Type} `{!JSNumber number}.

(** The options object [formatCurrency] hands to [toLocaleString]; a
    field left out of the literal is [None]. *)
Record NumberFormatOptions := {
  style : option string;
  currency : option string;
  minimumFractionDigits : number;
  maximumFractionDigits : number;
}.

(** What [formatCurrency] needs of the runtime: [isNaN], the
    upper-casing of a string, and [value.toLocaleString(undefined,
    options)] in the locale of the process, which throws a
    [RangeError] ([None]) on a currency code or a digit count it does
    not accept. *)
Class JSIntl := {
  isNaN : number → bool;
  toUpperCase : string → string;
  toLocaleString : number → NumberFormatOptions → option string;
}.
Context {intl : JSIntl}.

(** The first argument: [number | null | undefined]. *)
Inductive Nullable :=
  | Null
  | Undefined
  | Value (n : number).

(** [value === null || value === undefined || isNaN(value)]. *)
Definition not_a_number (value : Nullable) : bool :=
  match value with
  | Null | Undefined => true
  | Value n => isNaN n
  end.

(** [currency?.toUpperCase() || 'USD']. *)
Definition currency_code (code : option string) : string :=
  match code with
  | None => "USD"
  | Some c => if bool_decide (toUpperCase c = "") then "USD" else toUpperCase c
  end.

(** [digits ?? 2]. *)
Definition fraction_digits (digits : option number) : number :=
  default (number_of_Z 2) digits.

(** Lines 25 to 47.  [None] for [digits], [currency] or [showSymbol]
    is an argument left out; the result is [None] when
    [toLocaleString] throws. *)
Definition formatCurrency (value : Nullable) (digits : option number)
    (code : option string) (showSymbol : option bool) : option string :=
  match value with
  | Value n =>
      if isNaN n then
        Some (if bool_decide (showSymbol ≠ Some false) then "$0.00" else "0.00")
      else if bool_decide (showSymbol = None ∨ showSymbol = Some true) then
        toLocaleString n
          {| style := Some "currency";
             currency := Some (currency_code code);
             minimumFractionDigits := fraction_digits digits;
             maximumFractionDigits := fraction_digits digits |}
      else
        toLocaleString n
          {| style := None;
             currency := None;
             minimumFractionDigits := fraction_digits digits;
             maximumFractionDigits := fraction_digits digits |}
  | Null | Undefined =>
      Some (if bool_decide (showSymbol ≠ Some false) then "$0.00" else "0.00")
  end.

End FormatCurrency.

Arguments NumberFormatOptions : clear implicits.
Arguments JSIntl number : clear implicits.
Arguments Nullable : clear implicits.

(** ** [TrendingCoin], the caller of [fetcher] *)

Section TrendingCoin.
Context {number : Type} `{!JSNumber number} {query_parser : QueryParser number}.

(** Line 179 of the component:
    [fetcher('/search/trending', undefined, 300)]. *)
Definition TrendingCoin_fetch (config : Config) : Async number (JSON number) :=
  fetcher config "/search/trending" None (Some (number_of_Z 300)).

(** [Boolean(array)]: an array is an object, and every object is
    truthy, the empty array too. *)
Definition array_truthy {A} (items : list A) : bool := true.

(** Line 231, the rows handed to the table:
    [trendingCoins.coins.slice(0, 6) || []]. *)
Definition TrendingCoin_data {A} (coins : list A) : list A :=
  let sliced := take 6 coins in
  if array_truthy sliced then sliced else [].

End TrendingCoin.

(** ** Further fixtures *)

(** A transport on which every request fails, as [fetch] does when
    the network is down. *)
Definition unreachable : Transport Z := λ _ _, inl TypeError.


(** Upper-casing of the ASCII letters, which is what [toUpperCase]
    does to a currency code. *)
Definition ascii_upper (c : ascii) : ascii :=
  let n := N_of_ascii c in
  if (97 <=? n)%N && (n <=? 122)%N then ascii_of_N (n - 32) else c.

Fixpoint ascii_upper_string (s : string) : string :=
  match s with
  | EmptyString => EmptyString
  | String c s' => String (ascii_upper c) (ascii_upper_string s')
  end.

(** A stand-in for a locale: the currency code, when there is one,
    before the integer in decimal. *)
Definition demo_intl : JSIntl Z := {|
  isNaN _ := false;
  toUpperCase := ascii_upper_string;
  toLocaleString n options :=
    Some (match currency options with
          | Some code => code +:+ " " +:+ pretty n
          | None => pretty n
          end);
|}.

(** * Properties *)

(** ** Strings and percent encoding *)

Module StrFacts.
Import Str.

Lemma occurs_app c a b : occurs c (a +:+ b) = occurs c a || occurs c b.
Proof.
  induction a as [|d a IH]; simpl; [done|].
  destruct (decide (d = c)); [done|apply IH].
Qed.

Lemma split_on_free sep s : occurs sep s = false → split_on sep s = [s].
Proof.
  induction s as [|c s IH]; simpl; [done|].
  destruct (decide (c = sep)); [done|].
  intros Hs. by rewrite (IH Hs).
Qed.

Lemma split_on_app sep a b :
  occurs sep a = false →
  split_on sep (a +:+ String sep b) = a :: split_on sep b.
Proof.
  induction a as [|c a IH]; simpl.
  - intros _. by rewrite decide_True.
  - destruct (decide (c = sep)); [done|].
    intros Ha. by rewrite (IH Ha).
Qed.

Lemma split_on_concat sep l :
  l ≠ [] →
  Forall (λ x, occurs sep x = false) l →
  split_on sep (String.concat (String sep EmptyString) l) = l.
Proof.
  intros Hne Hall. induction Hall as [|x l Hx Hl IH]; [done|].
  destruct l as [|y l]; simpl.
  - by apply split_on_free.
  - change (String sep EmptyString +:+ ?s) with (String sep s).
    rewrite (split_on_app _ _ _ Hx). f_equal. by apply IH.
Qed.

Lemma app_cons c a b : String c a +:+ b = String c (a +:+ b).
Proof. reflexivity. Qed.

Lemma app_empty_l b : "" +:+ b = b.
Proof. reflexivity. Qed.

Lemma app_empty_r s : s +:+ "" = s.
Proof.
  induction s as [|c s IH]; [done|].
  change (String c (s +:+ "") = String c s). by rewrite IH.
Qed.

Lemma app_assoc a b c : (a +:+ b) +:+ c = a +:+ (b +:+ c).
Proof.
  induction a as [|d a IH]; [done|].
  change (String d ((a +:+ b) +:+ c) = String d (a +:+ (b +:+ c))). by rewrite IH.
Qed.

Lemma app_empty_inv a b : a +:+ b = "" → a = "" ∧ b = "".
Proof. destruct a; simpl; [done|discriminate]. Qed.

Lemma concat_nonempty sep x l : x ≠ "" → String.concat sep (x :: l) ≠ "".
Proof.
  intros Hx. destruct l; simpl; [done|].
  intros Heq. by apply app_empty_inv in Heq as [? _].
Qed.

Lemma before_free c s : occurs c s = false → before c s = s.
Proof.
  induction s as [|d s IH]; simpl; [done|].
  destruct (decide (d = c)); [done|]. intros Hs. by rewrite (IH Hs).
Qed.

Lemma from_free c s : occurs c s = false → from c s = "".
Proof.
  induction s as [|d s IH]; simpl; [done|].
  destruct (decide (d = c)); [done|apply IH].
Qed.

Lemma after_free c s : occurs c s = false → after c s = "".
Proof. intros Hs. unfold after. by rewrite (from_free _ _ Hs). Qed.

Lemma before_app c a b :
  occurs c a = false → before c (a +:+ String c b) = a.
Proof.
  induction a as [|d a IH]; simpl.
  - intros _. by rewrite decide_True.
  - destruct (decide (d = c)); [done|]. intros Ha. by rewrite (IH Ha).
Qed.

Lemma contains_middle a b c : contains b (a +:+ b +:+ c).
Proof. by exists a, c. Qed.

End StrFacts.

Module UriFacts.
Import Str Uri StrFacts.

Lemma percent_free d c : delimiter d → occurs d (percent c) = false.
Proof.
  intros [->| ->]; destruct c as [[] [] [] [] [] [] [] []]; reflexivity.
Qed.

Lemma uri_unescaped_not_delimiter d c :
  delimiter d → uri_unescaped c = true → c ≠ d.
Proof.
  intros [->| ->] Hc ->; vm_compute in Hc; discriminate.
Qed.

Lemma encodeURIComponent_free d s :
  delimiter d → occurs d (encodeURIComponent s) = false.
Proof.
  intros Hd. induction s as [|c s IH]; simpl; [done|].
  rewrite occurs_app, IH, orb_false_r.
  destruct (uri_unescaped c) eqn:Hc.
  - simpl. by rewrite decide_False by eauto using uri_unescaped_not_delimiter.
  - by apply percent_free.
Qed.

Lemma escape_sub_delims_free d s :
  delimiter d → occurs d s = false → occurs d (escape_sub_delims s) = false.
Proof.
  intros Hd. induction s as [|c s IH]; simpl; [done|].
  destruct (decide (c = d)) as [|Hne]; [done|]. intros Hs.
  rewrite occurs_app, (IH Hs), orb_false_r.
  case_bool_decide.
  - by apply percent_free.
  - simpl. by rewrite decide_False.
Qed.

(** [strictUriEncode] works one character at a time. *)
Lemma escape_sub_delims_app a b :
  escape_sub_delims (a +:+ b) = escape_sub_delims a +:+ escape_sub_delims b.
Proof.
  induction a as [|c a IH]; [done|].
  change (String c a +:+ b) with (String c (a +:+ b)).
  simpl. by rewrite IH, app_assoc.
Qed.

Lemma escape_sub_delims_percent c : escape_sub_delims (percent c) = percent c.
Proof. destruct c as [[] [] [] [] [] [] [] []]; reflexivity. Qed.

Lemma strictUriEncode_cons c s :
  strictUriEncode (String c s) = encode_char c +:+ strictUriEncode s.
Proof.
  unfold strictUriEncode, encode_char. simpl. rewrite escape_sub_delims_app.
  f_equal. destruct (uri_unescaped c); simpl.
  - case_bool_decide; simpl; by rewrite ?app_empty_r.
  - apply escape_sub_delims_percent.
Qed.

Lemma unpercent_percent c : unpercent (percent c) = c.
Proof. destruct c as [[] [] [] [] [] [] [] []]; reflexivity. Qed.

Lemma percent_inj c c' : percent c = percent c' → c = c'.
Proof.
  intros Heq. by rewrite <-(unpercent_percent c), Heq, unpercent_percent.
Qed.

(** The code of a character is never a prefix of another's. *)
Lemma encode_char_prefix_free c c' x y :
  encode_char c +:+ x = encode_char c' +:+ y → c = c' ∧ x = y.
Proof.
  unfold encode_char.
  destruct (uri_unescaped c && _) eqn:Hc, (uri_unescaped c' && _) eqn:Hc';
    unfold percent; rewrite !app_cons, !app_empty_l.
  - intros [= -> ->]. done.
  - intros [= -> _]. vm_compute in Hc. discriminate.
  - intros [= <- _]. vm_compute in Hc'. discriminate.
  - intros [= Hhi Hlo ->]. split; [|done].
    apply percent_inj. unfold percent. by rewrite Hhi, Hlo.
Qed.

Lemma encode_char_nonempty c x : encode_char c +:+ x ≠ "".
Proof. unfold encode_char, percent. destruct (_ && _); by rewrite app_cons. Qed.

Lemma strictUriEncode_inj s s' :
  strictUriEncode s = strictUriEncode s' → s = s'.
Proof.
  revert s'. induction s as [|c s IH]; intros [|c' s'].
  - done.
  - rewrite strictUriEncode_cons. intros Heq.
    symmetry in Heq. by apply encode_char_nonempty in Heq.
  - rewrite strictUriEncode_cons. intros Heq.
    by apply encode_char_nonempty in Heq.
  - rewrite !strictUriEncode_cons. intros Heq.
    apply encode_char_prefix_free in Heq as [-> Heq]. by rewrite (IH _ Heq).
Qed.

Lemma strictUriEncode_free d s :
  delimiter d → occurs d (strictUriEncode s) = false.
Proof.
  intros Hd. apply escape_sub_delims_free, encodeURIComponent_free; done.
Qed.

End UriFacts.

(** ** The query encoding *)

Section EncodeFacts.
Context {number : Type} `{!JSNumber number}.
Import Str StrFacts UriFacts.

Implicit Types (P : gmap string (param number)) (p : param number).

Let options := {| skipEmptyString := true; skipNull := true |}.

Lemma filter_all {A} (Q : A → Prop) `{!∀ x, Decision (Q x)} (l : list A) :
  Forall Q l → filter Q l = l.
Proof.
  induction 1 as [|x l Hx _ IH]; [done|].
  by rewrite filter_cons_True, IH.
Qed.

Lemma length_filter_map {A B} (f : A → B) (Q : B → Prop)
    `{!∀ y, Decision (Q y)} (l : list A) :
  length (filter Q (map f l)) = length (filter (λ x, Q (f x)) l).
Proof.
  induction l as [|x l IH]; [done|]. simpl.
  destruct (decide (Q (f x))).
  - rewrite !filter_cons_True by done. simpl. by rewrite IH.
  - by rewrite !filter_cons_False.
Qed.

Lemma shouldFilter_scalar p : shouldFilter options (QScalar p) = omitted p.
Proof. by destruct p. Qed.

Lemma stringify_key_kept key p :
  omitted p = false →
  stringify_key options key (Some (QScalar p)) = pair_text key p.
Proof. by destruct p. Qed.

Lemma pair_text_nonempty key p : pair_text key p ≠ "".
Proof.
  unfold pair_text. intros Heq.
  apply app_empty_inv in Heq as [_ Heq]. discriminate.
Qed.

Lemma pair_text_free key p : occurs "&" (pair_text key p) = false.
Proof.
  unfold pair_text, encode_component.
  by rewrite !occurs_app, !strictUriEncode_free by (by left).
Qed.

Lemma objectCopy_kept P :
  filter (λ kv, shouldFilter options kv.2 = false) (QScalar <$> P)
  = QScalar <$> kept P.
Proof.
  rewrite map_filter_fmap. f_equal. apply map_filter_ext.
  intros key p _. simpl. by rewrite shouldFilter_scalar.
Qed.

Lemma kept_lookup P key p :
  (key, p) ∈ map_to_list (kept P) → P !! key = Some p ∧ omitted p = false.
Proof.
  rewrite elem_of_map_to_list. unfold kept.
  by rewrite map_lookup_filter_Some.
Qed.

(** The text [stringify] joins, before sorting. *)
Lemma stringify_key_entries P :
  map (λ key, stringify_key options key ((QScalar <$> P) !! key))
      (map_to_list (kept P)).*1
  = map (λ kv, pair_text kv.1 kv.2) (map_to_list (kept P)).
Proof.
  rewrite <-list_fmap_compose. apply list_fmap_ext.
  intros i [key p] Hi. simpl.
  apply list_elem_of_lookup_2, kept_lookup in Hi as [Hkey Hp].
  by rewrite lookup_fmap, Hkey, <-stringify_key_kept.
Qed.

Lemma encode_pieces P :
  ∃ pieces,
    encode P = String.concat "&" pieces
    ∧ pieces ≡ₚ map (λ kv, pair_text kv.1 kv.2) (map_to_list (kept P)).
Proof.
  unfold encode, stringify. fold options. rewrite objectCopy_kept.
  rewrite map_to_list_fmap, <-list_fmap_compose.
  change (fst ∘ prod_map id QScalar) with (@fst string (param number)).
  set (keys := merge_sort key_le (map_to_list (kept P)).*1).
  set (texts := map _ keys).
  assert (Htexts : texts ≡ₚ map (λ kv, pair_text kv.1 kv.2) (map_to_list (kept P))).
  { rewrite <-stringify_key_entries. subst texts keys.
    apply fmap_Permutation, merge_sort_Permutation. }
  exists texts. split; [|done]. f_equal.
  apply filter_all. (* every text is a pair, hence not empty *)
  apply Forall_forall. intros x Hx. rewrite Htexts in Hx.
  apply list_elem_of_fmap in Hx as [[key p] [-> _]]. apply pair_text_nonempty.
Qed.

Lemma pair_key_text key p : pair_key (pair_text key p) = encode_component key.
Proof.
  unfold pair_key, pair_text, encode_component.
  apply before_app, strictUriEncode_free. by right.
Qed.

(** An entry list of a map holds a key once or not at all. *)
Lemma count_key {A} (m : gmap string A) key :
  length (filter (λ kv, kv.1 = key) (map_to_list m))
  = match m !! key with Some _ => 1 | None => 0 end.
Proof.
  induction m as [|k x m Hk Hfirst IH] using map_first_key_ind; [done|].
  rewrite map_to_list_insert_first_key by done.
  destruct (decide (k = key)) as [->|Hne].
  - rewrite filter_cons_True, lookup_insert_eq by done. simpl.
    by rewrite IH, Hk.
  - rewrite filter_cons_False, lookup_insert_ne by done. apply IH.
Qed.

(** The pairs whose key is [key], counted on the kept entries. *)
Lemma count_pairs P key :
  length (filter (λ pair, pair_key pair = encode_component key)
            (map (λ kv, pair_text kv.1 kv.2) (map_to_list (kept P))))
  = match P !! key with
    | Some p => if omitted p then 0 else 1
    | None => 0
    end.
Proof.
  transitivity (length (filter (λ kv, kv.1 = key) (map_to_list (kept P)))).
  - rewrite length_filter_map. f_equal. apply list_filter_iff.
    intros [k p]. simpl. rewrite pair_key_text. split.
    + apply strictUriEncode_inj.
    + by intros ->.
  - rewrite count_key. unfold kept. rewrite map_lookup_filter.
    destruct (P !! key) as [p|]; simpl; [|done].
    by destruct (omitted p).
Qed.

Lemma segments_concat pieces :
  Forall (λ x, x ≠ "" ∧ occurs "&" x = false) pieces →
  segments (String.concat "&" pieces) = pieces.
Proof.
  intros Hall. unfold segments. destruct pieces as [|x l].
  - done.
  - rewrite decide_False.
    + apply split_on_concat; [done|]. eapply Forall_impl; [done|]. by intros ? [_ ?].
    + apply concat_nonempty. by apply Forall_cons in Hall as [[? _] _].
Qed.

End EncodeFacts.

(** C1. For every parameter mapping [P], the query text [fetcher]
    derives from it is its pairs joined with [&], and the pairs are,
    in some order, one [key=value] per entry of [P] whose value is not
    [null], [undefined] or the empty string, key and stringified value
    percent-encoded.  Counted by key: no pair for a key whose value is
    [null], [undefined] or the empty string (or that [P] does not
    have), exactly one for every other key.  In particular
    [encode({ page: 1, q: "", tag: null })] is exactly [page=1]. *)
Theorem encode_omits_empty_and_includes_rest :
  (∀ (number : Type) (Hnumber : JSNumber number) (P : gmap string (param number)),
      encode P = String.concat "&" (segments (encode P))
      ∧ segments (encode P)
        ≡ₚ map (λ kv, pair_text kv.1 kv.2)
               (map_to_list (filter (λ kv, omitted kv.2 = false) P))
      ∧ ∀ key,
          length (filter (λ pair, pair_key pair = encode_component key)
                    (segments (encode P)))
          = match P !! key with
            | Some p => if omitted p then 0 else 1
            | None => 0
            end)
  ∧ encode (number := Z)
      {[ "page" := PNumber 1%Z; "q" := PString ""; "tag" := PNull ]} = "page=1".
Proof.
  split; [|by vm_compute].
  intros number Hnumber P.
  destruct (encode_pieces P) as (pieces & Hencode & Hpieces).
  assert (Hsegments : segments (encode P) = pieces).
  { rewrite Hencode. apply segments_concat.
    apply Forall_forall. intros x Hx. rewrite Hpieces in Hx.
    apply list_elem_of_fmap in Hx as [[key p] [-> _]].
    split; [apply pair_text_nonempty|apply pair_text_free]. }
  rewrite Hsegments. split; [done|]. split; [done|].
  intros key. rewrite Hpieces. apply count_pairs.
Qed.

(** ** The fetch client *)

Section FetcherFacts.
Context {number : Type} `{!JSNumber number} {query_parser : QueryParser number}.
Import Str StrFacts.

Implicit Types (transport : Transport number) (config : Config)
  (endPoint : string) (params : option (gmap string (param number)))
  (revalidate : option number) (response : Response number).

Lemma run_fetcher transport config endPoint params revalidate :
  let url := fetcher_url config endPoint params in
  let init := fetcher_init config (default (number_of_Z 60) revalidate) in
  run transport (fetcher config endPoint params revalidate)
  = ([(url, init)],
     match transport url init with
     | inl e => inl e
     | inr response => settle response
     end).
Proof.
  unfold fetcher, settle. simpl.
  destruct (transport _ _) as [e|response]; simpl; [done|].
  destruct (ok response); simpl; unfold json.
  - by destruct (body_json response).
  - destruct (body_json response) as [[| | | | |fields]|]; simpl; try done.
    by destruct (or_else (fields !! "error") (statusText response)).
Qed.

(** With no query and no fragment in the URL itself, [stringifyUrl]
    appends the encoded query after a [?], or nothing. *)
Lemma fetcher_url_plain config endPoint params :
  plain (BASE_URL config +:+ "/" +:+ endPoint) →
  fetcher_url config endPoint params
  = (BASE_URL config +:+ "/" +:+ endPoint)
    +:+ (if decide (encode (default ∅ params) = "") then ""
         else "?" +:+ encode (default ∅ params)).
Proof.
  intros [Hquery Hhash]. unfold fetcher_url, stringifyUrl, extract, removeHash, getHash.
  rewrite (before_free _ _ Hhash), (before_free _ _ Hquery).
  rewrite (after_free _ _ Hquery), (from_free _ _ Hhash).
  change (parse "") with (∅ : gmap string (qvalue number)).
  rewrite (right_id_L ∅ (∪)).
  fold (encode (default ∅ params)).
  destruct (decide _); simpl.
  - by rewrite !app_empty_r.
  - by rewrite !app_empty_r.
Qed.

End FetcherFacts.

Section FetcherClaims.
Context {number : Type} `{!JSNumber number} {query_parser : QueryParser number}.
Import Str StrFacts.

Implicit Types (transport : Transport number) (config : Config)
  (endPoint : string) (params : option (gmap string (param number)))
  (revalidate : option number) (response : Response number).

(** A call whose request the transport answers with [response]. *)
Ltac answered Hanswer :=
  rewrite run_fetcher; cbv zeta; rewrite Hanswer; unfold settle.

(** C2, amended. For every call of [fetcher] whose response has a
    non-success status [S] and a JSON body with an [error] field of
    non-empty text [X], the promise rejects with an [Error] whose
    message is exactly [API Error: S: X]; the rejection is all the
    call produces. *)
Theorem fetcher_rejects_with_server_text
    transport config endPoint params revalidate response fields X :
  transport (fetcher_url config endPoint params)
            (fetcher_init config (default (number_of_Z 60) revalidate))
    = inr response →
  ok response = false →
  body_json response = Some (JObject fields) →
  fields !! "error" = Some (JString X) →
  X ≠ "" →
  (run transport (fetcher config endPoint params revalidate)).2
  = inl (Error ("API Error: " +:+ pretty (status response) +:+ ": " +:+ X)).
Proof.
  intros Hanswer Hok Hbody Herror HX. answered Hanswer.
  rewrite Hok, Hbody, Herror. simpl.
  by rewrite bool_decide_eq_false_2.
Qed.

(** C3. For every call of [fetcher] whose response has a non-success
    status and a body that is not JSON, the promise rejects with an
    [Error], not with the [SyntaxError] of the parse: its message is
    [API Error: ] followed by the status code, [: ] and the status
    text of the response, so it contains both. *)
Theorem fetcher_unparsable_error_body
    transport config endPoint params revalidate response :
  transport (fetcher_url config endPoint params)
            (fetcher_init config (default (number_of_Z 60) revalidate))
    = inr response →
  ok response = false →
  body_json response = None →
  ∃ message,
    (run transport (fetcher config endPoint params revalidate)).2
      = inl (Error message)
    ∧ message = "API Error: " +:+ pretty (status response) +:+ ": "
                +:+ statusText response
    ∧ contains (pretty (status response)) message
    ∧ contains (statusText response) message.
Proof.
  intros Hanswer Hok Hbody. answered Hanswer. rewrite Hok, Hbody.
  eexists. split; [reflexivity|]. split; [reflexivity|]. split.
  - apply (contains_middle "API Error: ").
  - exists ("API Error: " +:+ pretty (status response) +:+ ": "), "".
    by rewrite app_empty_r, !app_assoc.
Qed.

(** C4. For every call of [fetcher] whose response has a status in
    the success range, the promise resolves to what [response.json()]
    gives, whatever value that is: nothing is checked or changed. *)
Theorem fetcher_returns_parsed_body
    transport config endPoint params revalidate response v :
  transport (fetcher_url config endPoint params)
            (fetcher_init config (default (number_of_Z 60) revalidate))
    = inr response →
  ok response = true →
  body_json response = Some v →
  (run transport (fetcher config endPoint params revalidate)).2 = inr v.
Proof.
  intros Hanswer Hok Hbody. answered Hanswer. by rewrite Hok, Hbody.
Qed.

(** C5, amended. Every call of [fetcher] on a base URL and an
    endpoint path with no [?] and no [#], and with parameters whose
    names and values are well-formed strings wherever they are not
    left out, makes exactly one request, whatever the transport
    answers: a GET of [{BASE_URL}/{endPoint}], followed by [?] and
    the encoded query when that is not empty, with the header
    [x-cg-demo-api-key] set to the configured key and [Content-Type]
    set to [application/json].  (A name or value with a lone
    surrogate makes [encodeURIComponent] throw while the URL is
    built, before any request; such a call is outside this
    statement.) *)
Theorem fetcher_issues_one_get
    transport config endPoint params revalidate :
  plain (BASE_URL config +:+ "/" +:+ endPoint) →
  encodable (default ∅ params) →
  ∃ init,
    (run transport (fetcher config endPoint params revalidate)).1
      = [((BASE_URL config +:+ "/" +:+ endPoint)
          +:+ (if decide (encode (default ∅ params) = "") then ""
               else "?" +:+ encode (default ∅ params)),
          init)]
    ∧ request_method init = "GET"
    ∧ init_headers init !! "x-cg-demo-api-key" = Some (API_KEY config)
    ∧ init_headers init !! "Content-Type" = Some "application/json".
Proof.
  intros Hplain _. rewrite run_fetcher. cbv zeta.
  rewrite (fetcher_url_plain _ _ _ Hplain).
  eexists. split; [reflexivity|]. split; [done|].
  unfold fetcher_init. simpl. split.
  - by rewrite lookup_insert_eq.
  - by rewrite lookup_insert_ne, lookup_singleton_eq.
Qed.

(** C7. When [COINGECKO_BASE_URL] or [COINGECKO_API_KEY] is absent
    from the environment, loading the module throws an [Error] and
    exports nothing; and whenever the module did load, what it
    exports is [fetcher] over the two values the environment held,
    neither of them empty: a call never meets a missing setting. *)
Theorem missing_configuration_fails_at_load (env : gmap string string) :
  (env !! "COINGECKO_BASE_URL" = None ∨ env !! "COINGECKO_API_KEY" = None →
   ∃ message, load_module env = inl (Error message))
  ∧ (∀ exported, load_module env = inr exported →
     ∃ config,
       exported = fetcher config
       ∧ env !! "COINGECKO_BASE_URL" = Some (BASE_URL config)
       ∧ env !! "COINGECKO_API_KEY" = Some (API_KEY config)
       ∧ BASE_URL config ≠ "" ∧ API_KEY config ≠ "").
Proof.
  unfold load_module, load_config, missing. split.
  - intros [-> | ->].
    + by eexists.
    + destruct (env !! "COINGECKO_BASE_URL") as [base|]; [|by eexists].
      case_bool_decide; by eexists.
  - intros exported.
    destruct (env !! "COINGECKO_BASE_URL") as [base|]; [|done].
    case_bool_decide; [done|].
    destruct (env !! "COINGECKO_API_KEY") as [key|]; [|done].
    case_bool_decide; [done|].
    intros [= <-]. by eexists {| BASE_URL := base; API_KEY := key |}.
Qed.

(** C8. Every call of [fetcher] passes to the transport, as
    [next.revalidate], the number of seconds it was given, and 60
    when the argument was left out. *)
Theorem fetcher_revalidate_default
    transport config endPoint params revalidate :
  ∃ url init,
    (run transport (fetcher config endPoint params revalidate)).1 = [(url, init)]
    ∧ init_next_revalidate init
      = match revalidate with
        | None => number_of_Z 60
        | Some seconds => seconds
        end.
Proof.
  rewrite run_fetcher. cbv zeta. do 2 eexists. split; [reflexivity|].
  by destruct revalidate.
Qed.

(** C9. For every call of [fetcher] whose response has a non-success
    status and a JSON body whose [error] field is the empty string,
    the message of the [Error] ends with the status text of the
    response, and the call settles exactly as it does when the body
    has no [error] field at all. *)
Theorem fetcher_empty_error_text
    transport transport' config endPoint params revalidate response fields :
  transport (fetcher_url config endPoint params)
            (fetcher_init config (default (number_of_Z 60) revalidate))
    = inr response →
  ok response = false →
  body_json response = Some (JObject fields) →
  fields !! "error" = Some (JString "") →
  transport' (fetcher_url config endPoint params)
             (fetcher_init config (default (number_of_Z 60) revalidate))
    = inr {| status := status response;
             statusText := statusText response;
             body_json := Some (JObject (delete "error" fields)) |} →
  (run transport (fetcher config endPoint params revalidate)).2
    = inl (Error ("API Error: " +:+ pretty (status response) +:+ ": "
                  +:+ statusText response))
  ∧ (run transport' (fetcher config endPoint params revalidate)).2
    = (run transport (fetcher config endPoint params revalidate)).2.
Proof.
  intros Hanswer Hok Hbody Herror Hanswer'.
  rewrite !run_fetcher. cbv zeta. rewrite Hanswer, Hanswer'.
  unfold settle, ok in *. simpl. rewrite Hok, Hbody, Herror, lookup_delete_eq.
  done.
Qed.

End FetcherClaims.

(** *** Worked examples of the fetch client *)

(** C2 at the scenario of the specification: status 401 with body
    [{ "error": "bad key" }]. *)
Lemma fetcher_rejects_with_server_text_witness :
  (run (answering {| status := 401; statusText := "Unauthorized";
                     body_json := Some (JObject {[ "error" := JString "bad key" ]}) |})
       trending).2
  = inl (Error "API Error: 401: bad key").
Proof.
  apply (fetcher_rejects_with_server_text (query_parser := no_url_query)
           (answering _) demo_config "/search/trending" None (Some 300%Z)
           {| status := 401; statusText := "Unauthorized";
              body_json := Some (JObject {[ "error" := JString "bad key" ]}) |}
           {[ "error" := JString "bad key" ]} "bad key").
  - reflexivity.
  - reflexivity.
  - reflexivity.
  - vm_compute. reflexivity.
  - discriminate.
Defined.

(** C2 as stated fails when the text is empty: status 401, status
    text [Unauthorized], body [{ "error": "" }].  The message ends
    with the status text, not with the empty server text. *)
Lemma fetcher_server_text_counterexample :
  (run (answering {| status := 401; statusText := "Unauthorized";
                     body_json := Some (JObject {[ "error" := JString "" ]}) |})
       trending).2
  = inl (Error "API Error: 401: Unauthorized")
  ∧ "API Error: 401: Unauthorized" ≠ "API Error: " +:+ "401" +:+ ": " +:+ "".
Proof. split; [by vm_compute|discriminate]. Qed.

(** C3 at status 500 with a body that is not JSON. *)
Lemma fetcher_unparsable_error_body_witness :
  ∃ message,
    (run (answering {| status := 500; statusText := "Internal Server Error";
                       body_json := None |})
         trending).2
      = inl (Error message)
    ∧ message = "API Error: 500: Internal Server Error"
    ∧ Str.contains "500" message
    ∧ Str.contains "Internal Server Error" message.
Proof.
  apply (fetcher_unparsable_error_body (query_parser := no_url_query)
           (answering _) demo_config "/search/trending" None (Some 300%Z)
           {| status := 500; statusText := "Internal Server Error"; body_json := None |}).
  - reflexivity.
  - reflexivity.
  - reflexivity.
Defined.

(** C4 at the scenario of the specification: status 200 with body
    [{ "coins": [] }]. *)
Lemma fetcher_returns_parsed_body_witness :
  (run (answering {| status := 200; statusText := "OK";
                     body_json := Some (JObject {[ "coins" := JArray [] ]}) |})
       trending).2
  = inr (JObject {[ "coins" := JArray [] ]}).
Proof.
  apply (fetcher_returns_parsed_body (query_parser := no_url_query)
           (answering _) demo_config "/search/trending" None (Some 300%Z)
           {| status := 200; statusText := "OK";
              body_json := Some (JObject {[ "coins" := JArray [] ]}) |}).
  - reflexivity.
  - reflexivity.
  - reflexivity.
Defined.

(** C5 with parameters of which one survives the encoding. *)
Lemma fetcher_issues_one_get_witness :
  ∃ init,
    (run (answering {| status := 200; statusText := "OK"; body_json := Some (JArray []) |})
         (fetcher (query_parser := no_url_query) demo_config "coins/markets"
            (Some {[ "page" := PNumber 1%Z; "q" := PString ""; "tag" := PNull ]})
            None)).1
      = [("https://api.coingecko.com/api/v3/coins/markets?page=1", init)]
    ∧ request_method init = "GET"
    ∧ init_headers init !! "x-cg-demo-api-key" = Some "CG-demo"
    ∧ init_headers init !! "Content-Type" = Some "application/json".
Proof.
  destruct (fetcher_issues_one_get (query_parser := no_url_query)
              (answering {| status := 200; statusText := "OK";
                            body_json := Some (JArray []) |})
              demo_config "coins/markets"
              (Some {[ "page" := PNumber 1%Z; "q" := PString ""; "tag" := PNull ]})
              None) as (init & Hcalls & Hrest).
  - split; vm_compute; reflexivity.
  - intros key p Hkey Hkept. simpl in Hkey.
    apply lookup_insert_Some in Hkey as [[<- <-]|[_ Hkey]]; [by vm_compute|].
    apply lookup_insert_Some in Hkey as [[_ <-]|[_ Hkey]]; [done|].
    by apply lookup_singleton_Some in Hkey as [_ <-].
  - exists init. split; [|exact Hrest].
    rewrite Hcalls. reflexivity.
Defined.

(** Why C5 asks for a URL without [?] and [#]: a fragment in the
    endpoint stays last, and the query goes in before it. *)
Example fetcher_url_keeps_fragment_last :
  fetcher_url (query_parser := no_url_query) demo_config "coins#top"
    (Some {[ "page" := PNumber 1%Z ]})
  = "https://api.coingecko.com/api/v3/coins?page=1#top".
Proof. by vm_compute. Qed.

(** C5 as stated fails on the name of the header: the one request of
    the call [TrendingCoin] makes has no [x-api-key] header. *)
Lemma fetcher_api_key_header_counterexample :
  ∃ url init,
    (run (answering {| status := 200; statusText := "OK"; body_json := Some (JArray []) |})
         trending).1 = [(url, init)]
    ∧ init_headers init !! "x-api-key" = None
    ∧ init_headers init !! "x-cg-demo-api-key" = Some "CG-demo".
Proof. do 2 eexists. split; [reflexivity|]. split; by vm_compute. Qed.

(** C7 with an environment that holds the key and no base URL. *)
Lemma missing_configuration_fails_at_load_witness :
  ∃ message,
    load_module (query_parser := no_url_query) {[ "COINGECKO_API_KEY" := "CG-demo" ]}
    = inl (Error message).
Proof.
  apply (proj1 (missing_configuration_fails_at_load
                  (query_parser := no_url_query) {[ "COINGECKO_API_KEY" := "CG-demo" ]})).
  left. vm_compute. reflexivity.
Defined.

(** C9 at status 401: [{ "error": "" }] settles as [{}] does. *)
Lemma fetcher_empty_error_text_witness :
  (run (answering {| status := 401; statusText := "Unauthorized";
                     body_json := Some (JObject {[ "error" := JString "" ]}) |})
       trending).2
  = inl (Error "API Error: 401: Unauthorized")
  ∧ (run (answering {| status := 401; statusText := "Unauthorized";
                       body_json := Some (JObject ∅) |})
         trending).2
    = (run (answering {| status := 401; statusText := "Unauthorized";
                         body_json := Some (JObject {[ "error" := JString "" ]}) |})
           trending).2.
Proof.
  apply (fetcher_empty_error_text (query_parser := no_url_query)
           (answering _) (answering _) demo_config "/search/trending" None (Some 300%Z)
           {| status := 401; statusText := "Unauthorized";
              body_json := Some (JObject {[ "error" := JString "" ]}) |}
           {[ "error" := JString "" ]}).
  - reflexivity.
  - reflexivity.
  - reflexivity.
  - vm_compute. reflexivity.
  - vm_compute. reflexivity.
Defined.

(** ** The table primitives *)

Section TableFacts.
Context {value : Type} (cn : string → option (Node value) → string).

Implicit Types (allProps : gmap string (Node value)).

(** The props of the element a primitive returns: what was written,
    then the caller's remaining props over it. *)
Lemma spread_over_written tag slot classes allProps :
  slot_element cn tag slot classes allProps
    (NElement tag
       (delete "className" allProps ∪
        {[ "data-slot" := NString slot;
           "className" := NString (cn classes (allProps !! "className")) ]})).
Proof.
  eexists. split; [reflexivity|]. split; [|split].
  - rewrite lookup_union_r by apply lookup_delete_eq.
    by rewrite lookup_insert_ne, lookup_singleton_eq.
  - rewrite lookup_union, lookup_delete_ne, lookup_insert_eq by done.
    by destruct (allProps !! "data-slot").
  - intros name Hclass Hslot.
    rewrite lookup_union, lookup_delete_ne by done.
    rewrite lookup_insert_ne, lookup_singleton_ne by done.
    by destruct (allProps !! name).
Qed.

(** C10, amended. Each of the eight primitives returns exactly one
    element of its HTML tag.  The element carries every prop of the
    caller other than [className] unchanged, a [className] that is
    [cn] of the component's classes and the caller's, and the
    component's [data-slot] unless the caller's props have a
    [data-slot] of their own, which then stands in its place like any
    other prop.  [Table] returns its [table] as the only child of a
    [div] whose [data-slot] is [table-container]. *)
Theorem table_primitives_forward_props allProps :
  (∃ table,
      Table cn allProps
      = NElement "div"
          {[ "data-slot" := NString "table-container";
             "className" := NString "relative w-full overflow-x-auto";
             "children" := table ]}
      ∧ slot_element cn "table" "table" "w-full caption-bottom text-sm" allProps table)
  ∧ slot_element cn "thead" "table-header" "[&_tr]:border-b" allProps
      (TableHeader cn allProps)
  ∧ slot_element cn "tbody" "table-body" "[&_tr:last-child]:border-0" allProps
      (TableBody cn allProps)
  ∧ slot_element cn "tfoot" "table-footer"
      "bg-muted/50 border-t font-medium [&>tr]:last:border-b-0" allProps
      (TableFooter cn allProps)
  ∧ slot_element cn "tr" "table-row"
      "hover:bg-muted/50 data-[state=selected]:bg-muted border-b transition-colors"
      allProps (TableRow cn allProps)
  ∧ slot_element cn "th" "table-head"
      "text-foreground h-10 px-2 text-left align-middle font-medium whitespace-nowrap [&:has([role=checkbox])]:pr-0 [&>[role=checkbox]]:translate-y-[2px]"
      allProps (TableHead cn allProps)
  ∧ slot_element cn "td" "table-cell"
      "p-2 align-middle whitespace-nowrap [&:has([role=checkbox])]:pr-0 [&>[role=checkbox]]:translate-y-[2px]"
      allProps (TableCell cn allProps)
  ∧ slot_element cn "caption" "table-caption" "text-muted-foreground mt-4 text-sm"
      allProps (TableCaption cn allProps).
Proof.
  split.
  { eexists. split; [reflexivity|]. apply spread_over_written. }
  repeat split; apply spread_over_written.
Qed.

End TableFacts.

(** C10 as stated fails on the fixed [data-slot]: a [TableCell] given
    [data-slot="mine"] renders a [td] whose [data-slot] is [mine],
    not [table-cell]. *)
Lemma table_cell_data_slot_counterexample :
  ∃ props,
    TableCell (value := unit) cn_plain {[ "data-slot" := NString "mine" ]}
    = NElement "td" props
    ∧ props !! "data-slot" = Some (NString "mine")
    ∧ props !! "data-slot" ≠ Some (NString "table-cell").
Proof.
  eexists. split; [reflexivity|]. split; [by vm_compute|].
  vm_compute. discriminate.
Qed.

(** ** The declarative table renderer *)

Section RenderFacts.
Import DataTable.
Context {row content key : Type}.

Implicit Types (R : list row) (C : list (Column row content)) (id : row → key).

(** C6. For every row collection [R], the empty one included, and
    every column list [C], [render(R, C, id)] has [len(C)] header
    cells, the [i]-th holding the header of [C[i]], and [len(R)] body
    rows, the [j]-th identified by [id(R[j])] and holding [len(C)]
    cells, the [i]-th equal to [C[i].cell(R[j])]; with no rows the
    result is the header alone. *)
Theorem render_shape R C id :
  length (header_cells (render R C id)) = length C
  ∧ (∀ i c, C !! i = Some c →
       header_cells (render R C id) !! i = Some (header c))
  ∧ length (body_rows (render R C id)) = length R
  ∧ (∀ j r, R !! j = Some r →
       ∃ out,
         body_rows (render R C id) !! j = Some out
         ∧ row_identity out = id r
         ∧ length (row_cells out) = length C
         ∧ ∀ i c, C !! i = Some c → row_cells out !! i = Some (cell c r))
  ∧ body_rows (render [] C id) = []
  ∧ header_cells (render [] C id) = header_cells (render R C id).
Proof.
  unfold render. simpl. repeat split.
  - apply length_map.
  - intros i c Hc. by rewrite list_lookup_fmap, Hc.
  - apply length_map.
  - intros j r Hr. eexists. split.
    + by rewrite list_lookup_fmap, Hr.
    + simpl. repeat split.
      * apply length_map.
      * intros i c Hc. by rewrite list_lookup_fmap, Hc.
Qed.

End RenderFacts.

(** The scenario of the specification: two rows, one column [V].
    Displayable content is a text or a number here. *)
Example render_two_rows :
  DataTable.render (content := string + nat) [(1, 5); (2, 9)]
    [ {| DataTable.header := inl "V"; DataTable.cell := λ r, inr r.2;
         DataTable.headerClassName := None; DataTable.cellClassName := None |} ]
    fst
  = {| DataTable.header_cells := [inl "V"];
       DataTable.body_rows :=
         [ {| DataTable.row_identity := 1; DataTable.row_cells := [inr 5] |};
           {| DataTable.row_identity := 2; DataTable.row_cells := [inr 9] |} ] |}.
Proof. reflexivity. Qed.

(** * Further properties of the code *)

(** ** [fetcher]: every way a call can settle *)

Section FetcherOutcomes.
Context {number : Type} `{!JSNumber number} {query_parser : QueryParser number}.

Implicit Types (transport : Transport number) (config : Config)
  (endPoint : string) (params : option (gmap string (param number)))
  (revalidate : option number) (response : Response number).

(** X1. When the request itself fails, [fetcher] rejects with the
    very exception [fetch] rejected with: it made that one request,
    did not try again, and did not wrap the failure in an
    [API Error]. *)
Theorem fetcher_network_failure
    transport config endPoint params revalidate e :
  transport (fetcher_url config endPoint params)
            (fetcher_init config (default (number_of_Z 60) revalidate))
    = inl e →
  run transport (fetcher config endPoint params revalidate)
  = ([(fetcher_url config endPoint params,
       fetcher_init config (default (number_of_Z 60) revalidate))],
     inl e).
Proof. intros Hanswer. rewrite run_fetcher. cbv zeta. by rewrite Hanswer. Qed.

(** X2. A success status with a body that is not JSON rejects with
    the [SyntaxError] of the parse: the [catch] of the error path
    does not guard the success path, and nothing is returned in its
    place. *)
Theorem fetcher_success_unparsable_body
    transport config endPoint params revalidate response :
  transport (fetcher_url config endPoint params)
            (fetcher_init config (default (number_of_Z 60) revalidate))
    = inr response →
  ok response = true →
  body_json response = None →
  (run transport (fetcher config endPoint params revalidate)).2 = inl SyntaxError.
Proof.
  intros Hanswer Hok Hbody. rewrite run_fetcher. cbv zeta.
  rewrite Hanswer. unfold settle. by rewrite Hok, Hbody.
Qed.

(** X3. [fetcher] resolves to [v] exactly when the transport answered
    with a response whose status is in 200..299 and whose body parses
    to [v].  So a non-success status never yields a value, whatever
    the body says, and neither does a failed request. *)
Theorem fetcher_resolves_iff
    transport config endPoint params revalidate (v : JSON number) :
  (run transport (fetcher config endPoint params revalidate)).2 = inr v
  ↔ ∃ response,
      transport (fetcher_url config endPoint params)
                (fetcher_init config (default (number_of_Z 60) revalidate))
        = inr response
      ∧ (200 ≤ status response ≤ 299)%N
      ∧ body_json response = Some v.
Proof.
  rewrite run_fetcher. cbv zeta. simpl.
  destruct (transport _ _) as [e|response]; simpl.
  - split; [done|]. by intros (? & ? & _).
  - unfold settle, ok. split.
    + intros Hv. exists response. split; [done|].
      case_bool_decide.
      2:{ destruct (body_json response) as [[| | | | |fields]|]; try done.
          by destruct (or_else _ _). }
      split; [done|]. by destruct (body_json response) as [w|]; simplify_eq.
    + intros (? & [= <-] & Hstatus & Hbody).
      by rewrite bool_decide_eq_true_2, Hbody.
Qed.

(** X4. A non-success response whose body is the JSON value [null]
    rejects with a [TypeError], not with an [API Error]: the body
    parses, so the [catch] does not replace it, and reading [error]
    off [null] throws. *)
Theorem fetcher_null_error_body
    transport config endPoint params revalidate response :
  transport (fetcher_url config endPoint params)
            (fetcher_init config (default (number_of_Z 60) revalidate))
    = inr response →
  ok response = false →
  body_json response = Some JNull →
  (run transport (fetcher config endPoint params revalidate)).2 = inl TypeError.
Proof.
  intros Hanswer Hok Hbody. rewrite run_fetcher. cbv zeta.
  rewrite Hanswer. unfold settle. by rewrite Hok, Hbody.
Qed.

(** X5. A non-success response rejects in one of two ways only: with
    a [TypeError], or with an [Error] whose message starts with
    [API Error: ], the status code and [: ].  It is the [Error]
    whenever the body is not the JSON value [null] and its [error]
    field, where it has one, is a string, a number, a boolean or
    [null]. *)
Theorem fetcher_error_prefix
    transport config endPoint params revalidate response :
  transport (fetcher_url config endPoint params)
            (fetcher_init config (default (number_of_Z 60) revalidate))
    = inr response →
  ok response = false →
  ((run transport (fetcher config endPoint params revalidate)).2 = inl TypeError
   ∨ ∃ text,
       (run transport (fetcher config endPoint params revalidate)).2
       = inl (Error ("API Error: " +:+ pretty (status response) +:+ ": " +:+ text)))
  ∧ (body_json response ≠ Some JNull →
     (∀ fields, body_json response = Some (JObject fields) →
        match fields !! "error" with
        | Some (JArray _) | Some (JObject _) => False
        | _ => True
        end) →
     ∃ text,
       (run transport (fetcher config endPoint params revalidate)).2
       = inl (Error ("API Error: " +:+ pretty (status response) +:+ ": " +:+ text))).
Proof.
  intros Hanswer Hok. rewrite run_fetcher. cbv zeta.
  rewrite Hanswer. unfold settle, api_error. rewrite Hok. split.
  - destruct (body_json response) as [[| | | | |fields]|]; eauto.
    destruct (or_else _ _) as [e|text] eqn:Htext; [|eauto].
    left. unfold or_else in Htext.
    destruct (fields !! "error") as [v|]; [|done].
    destruct (truthy _); [|done]. by destruct (to_string v); simplify_eq.
  - intros Hbody Hscalar.
    destruct (body_json response) as [[| | | | |fields]|]; try done; eauto.
    specialize (Hscalar fields eq_refl). unfold or_else.
    destruct (fields !! "error") as [[]|]; try done; simpl; eauto;
      repeat case_match; simplify_eq; eauto.
Qed.

(** X6. The text after the prefix is the status text of the response
    whenever the body gives no usable [error]: the body is a JSON
    array, string, number or boolean, or it is an object whose
    [error] is missing, [null] or [false]. *)
Theorem fetcher_falls_back_to_status_text
    transport config endPoint params revalidate response body :
  transport (fetcher_url config endPoint params)
            (fetcher_init config (default (number_of_Z 60) revalidate))
    = inr response →
  ok response = false →
  body_json response = Some body →
  (∃ items, body = JArray items) ∨ (∃ s, body = JString s)
  ∨ (∃ n, body = JNumber n) ∨ (∃ b, body = JBoolean b)
  ∨ (∃ fields, body = JObject fields
       ∧ (fields !! "error" = None ∨ fields !! "error" = Some JNull
          ∨ fields !! "error" = Some (JBoolean false))) →
  (run transport (fetcher config endPoint params revalidate)).2
  = inl (Error ("API Error: " +:+ pretty (status response) +:+ ": "
                +:+ statusText response)).
Proof.
  intros Hanswer Hok Hbody Hshape. rewrite run_fetcher. cbv zeta.
  rewrite Hanswer. unfold settle, api_error. rewrite Hok, Hbody.
  destruct Hshape as [[? ->]|[[? ->]|[[? ->]|[[? ->]|(fields & -> & Herror)]]]];
    try done.
  by destruct Herror as [->|[->| ->]].
Qed.

(** X7. An [error] field that holds an object is not looked into.
    When the object has no field named [toString] the message ends
    with the text [[object Object]]; when it has one, the conversion
    to text throws and the call rejects with a [TypeError] instead of
    an [API Error]. *)
Theorem fetcher_object_valued_error
    transport config endPoint params revalidate response fields detail :
  transport (fetcher_url config endPoint params)
            (fetcher_init config (default (number_of_Z 60) revalidate))
    = inr response →
  ok response = false →
  body_json response = Some (JObject fields) →
  fields !! "error" = Some (JObject detail) →
  (run transport (fetcher config endPoint params revalidate)).2
  = match detail !! "toString" with
    | None =>
        inl (Error ("API Error: " +:+ pretty (status response) +:+ ": "
                    +:+ "[object Object]"))
    | Some _ => inl TypeError
    end.
Proof.
  intros Hanswer Hok Hbody Herror. rewrite run_fetcher. cbv zeta.
  rewrite Hanswer. unfold settle, api_error. rewrite Hok, Hbody, Herror. simpl.
  by destruct (detail !! "toString").
Qed.

End FetcherOutcomes.

(** *** Worked examples of the outcomes *)

(** X1 when the network is down. *)
Lemma fetcher_network_failure_witness :
  run unreachable trending
  = ([(fetcher_url (query_parser := no_url_query) demo_config "/search/trending" None,
       fetcher_init demo_config 300%Z)],
     inl TypeError).
Proof.
  apply (fetcher_network_failure (query_parser := no_url_query)
           unreachable demo_config "/search/trending" None (Some 300%Z) TypeError).
  reflexivity.
Defined.

(** X2 at status 200 with an HTML body. *)
Lemma fetcher_success_unparsable_body_witness :
  (run (answering {| status := 200; statusText := "OK"; body_json := None |})
       trending).2
  = inl SyntaxError.
Proof.
  apply (fetcher_success_unparsable_body (query_parser := no_url_query)
           (answering _) demo_config "/search/trending" None (Some 300%Z)
           {| status := 200; statusText := "OK"; body_json := None |}).
  - reflexivity.
  - reflexivity.
  - reflexivity.
Defined.

(** X4 at status 500 with the body [null]. *)
Lemma fetcher_null_error_body_witness :
  (run (answering {| status := 500; statusText := "Internal Server Error";
                     body_json := Some JNull |})
       trending).2
  = inl TypeError.
Proof.
  apply (fetcher_null_error_body (query_parser := no_url_query)
           (answering _) demo_config "/search/trending" None (Some 300%Z)
           {| status := 500; statusText := "Internal Server Error";
              body_json := Some JNull |}).
  - reflexivity.
  - reflexivity.
  - reflexivity.
Defined.

(** X5 at status 429 with the body [{ "error": "slow down" }]. *)
Lemma fetcher_error_prefix_witness :
  ∃ text,
    (run (answering {| status := 429; statusText := "Too Many Requests";
                       body_json := Some (JObject {[ "error" := JString "slow down" ]}) |})
         trending).2
    = inl (Error ("API Error: " +:+ "429" +:+ ": " +:+ text)).
Proof.
  destruct (fetcher_error_prefix (query_parser := no_url_query)
              (answering {| status := 429; statusText := "Too Many Requests";
                            body_json := Some (JObject {[ "error" := JString "slow down" ]}) |})
              demo_config "/search/trending" None (Some 300%Z)
              {| status := 429; statusText := "Too Many Requests";
                 body_json := Some (JObject {[ "error" := JString "slow down" ]}) |})
    as [_ Hprefix].
  - reflexivity.
  - reflexivity.
  - destruct Hprefix as [text Htext].
    + discriminate.
    + intros fields [= <-]. vm_compute. exact I.
    + exists text. exact Htext.
Defined.

(** X6 at status 404 with the body [{ "status": "gone" }], which has
    no [error] field. *)
Lemma fetcher_falls_back_to_status_text_witness :
  (run (answering {| status := 404; statusText := "Not Found";
                     body_json := Some (JObject {[ "status" := JString "gone" ]}) |})
       trending).2
  = inl (Error "API Error: 404: Not Found").
Proof.
  apply (fetcher_falls_back_to_status_text (query_parser := no_url_query)
           (answering _) demo_config "/search/trending" None (Some 300%Z)
           {| status := 404; statusText := "Not Found";
              body_json := Some (JObject {[ "status" := JString "gone" ]}) |}
           (JObject {[ "status" := JString "gone" ]})).
  - reflexivity.
  - reflexivity.
  - reflexivity.
  - do 4 right. eexists. split; [reflexivity|]. left. vm_compute. reflexivity.
Defined.

(** X7 at status 400: the body [{ "error": { "code": "bad_request" } }]
    gives the [API Error], the body [{ "error": { "toString": 1 } }]
    a [TypeError]. *)
Lemma fetcher_object_valued_error_witness :
  (run (answering {| status := 400; statusText := "Bad Request";
                     body_json :=
                       Some (JObject {[ "error" := JObject {[ "code" := JString "bad_request" ]} ]}) |})
       trending).2
  = inl (Error "API Error: 400: [object Object]")
  ∧ (run (answering {| status := 400; statusText := "Bad Request";
                       body_json :=
                         Some (JObject {[ "error" := JObject {[ "toString" := JNumber 1%Z ]} ]}) |})
         trending).2
    = inl TypeError.
Proof.
  split.
  - etransitivity.
    { apply (fetcher_object_valued_error (query_parser := no_url_query)
               (answering _) demo_config "/search/trending" None (Some 300%Z)
               {| status := 400; statusText := "Bad Request";
                  body_json :=
                    Some (JObject {[ "error" := JObject {[ "code" := JString "bad_request" ]} ]}) |}
               {[ "error" := JObject {[ "code" := JString "bad_request" ]} ]}
               {[ "code" := JString "bad_request" ]});
        [reflexivity | reflexivity | reflexivity | vm_compute; reflexivity]. }
    vm_compute. reflexivity.
  - etransitivity.
    { apply (fetcher_object_valued_error (query_parser := no_url_query)
               (answering _) demo_config "/search/trending" None (Some 300%Z)
               {| status := 400; statusText := "Bad Request";
                  body_json :=
                    Some (JObject {[ "error" := JObject {[ "toString" := JNumber 1%Z ]} ]}) |}
               {[ "error" := JObject {[ "toString" := JNumber 1%Z ]} ]}
               {[ "toString" := JNumber 1%Z ]});
        [reflexivity | reflexivity | reflexivity | vm_compute; reflexivity]. }
    vm_compute. reflexivity.
Defined.

(** ** The URL [fetcher] builds *)

Module OrderFacts.
Import Unicode.

Lemma units_leb_total a b : units_leb a b = true ∨ units_leb b a = true.
Proof.
  revert b. induction a as [|x a IH]; intros [|y b]; simpl; auto.
  destruct (N.ltb_spec x y), (N.ltb_spec y x); auto; lia.
Qed.

(** The order of the sort is transitive. *)
Lemma units_leb_trans a b c :
  units_leb a b = true → units_leb b c = true → units_leb a c = true.
Proof.
  revert b c. induction a as [|x a IH]; intros [|y b] [|z c]; simpl; try done.
  destruct (N.ltb_spec x y), (N.ltb_spec y x), (N.ltb_spec y z),
    (N.ltb_spec z y), (N.ltb_spec x z), (N.ltb_spec z x);
    try done; try lia.
  apply IH.
Qed.

#[global] Instance key_le_total : Total key_le.
Proof. intros a b. apply units_leb_total. Qed.

#[global] Instance key_le_trans : Transitive key_le.
Proof. intros a b c. apply units_leb_trans. Qed.

End OrderFacts.

Section UrlFacts.
Context {number : Type} `{!JSNumber number} {query_parser : QueryParser number}.
Import Str StrFacts UriFacts OrderFacts.

Implicit Types (P : gmap string (param number)) (config : Config)
  (endPoint : string) (params : option (gmap string (param number))).

Lemma app_cancel_empty a b : a +:+ b = a → b = "".
Proof.
  induction a as [|c a IH]; [done|].
  rewrite app_cons. intros [= Heq]. by apply IH.
Qed.

Lemma kept_empty_iff P :
  kept P = ∅ ↔ ∀ key p, P !! key = Some p → omitted p = true.
Proof.
  unfold kept. rewrite map_empty_filter. unfold map_Forall. simpl.
  split; intros Hall key p Hkey; specialize (Hall key p Hkey).
  - by destruct (omitted p).
  - by rewrite Hall.
Qed.

Lemma encode_empty_iff P : encode P = "" ↔ kept P = ∅.
Proof.
  destruct (encode_pieces P) as (pieces & -> & Hpieces). split.
  - intros Hempty. apply map_to_list_empty_iff.
    destruct (map_to_list (kept P)) as [|[key p] entries]; [done|].
    destruct pieces as [|piece pieces].
    { by apply Permutation_nil_cons in Hpieces. }
    exfalso. revert Hempty. apply concat_nonempty.
    assert (Hpiece : piece ∈ piece :: pieces) by left.
    rewrite Hpieces in Hpiece.
    apply list_elem_of_fmap in Hpiece as [[key' p'] [-> _]].
    apply pair_text_nonempty.
  - intros Hkept. rewrite Hkept, map_to_list_empty in Hpieces.
    by apply Permutation_nil_r in Hpieces as ->.
Qed.

(** X8. On a base URL and endpoint without [?] and [#], the URL
    [fetcher] asks for is [{BASE_URL}/{endPoint}] itself, with no [?]
    after it, exactly when no parameter survives: [params] is left
    out, is empty, or holds only [null], [undefined] and empty
    strings. *)
Theorem fetcher_url_bare_iff config endPoint params :
  plain (BASE_URL config +:+ "/" +:+ endPoint) →
  fetcher_url config endPoint params = BASE_URL config +:+ "/" +:+ endPoint
  ↔ ∀ key p, default ∅ params !! key = Some p → omitted p = true.
Proof.
  intros Hplain. rewrite (fetcher_url_plain _ _ _ Hplain).
  rewrite <-kept_empty_iff, <-encode_empty_iff.
  destruct (decide (encode (default ∅ params) = "")) as [Hempty|Hquery].
  - by rewrite app_empty_r.
  - split; [|done]. intros Heq. by apply app_cancel_empty in Heq.
Qed.

Lemma StronglySorted_lookup {A} (R : relation A) l i j x y :
  StronglySorted R l → i < j → l !! i = Some x → l !! j = Some y → R x y.
Proof.
  intros Hsorted. revert i j.
  induction Hsorted as [|a l _ IH Hall]; intros i j Hij Hi Hj; [done|].
  destruct j as [|j]; [lia|]. destruct i as [|i]; simpl in *.
  - injection Hi as ->. rewrite Forall_forall in Hall.
    by apply Hall, list_elem_of_lookup_2 with j.
  - apply (IH i j); [lia|done..].
Qed.

Lemma entries_of_keys P (l : list (string * param number)) :
  Forall (λ kv, P !! kv.1 = Some kv.2) l →
  (λ key, (key, default PNull (P !! key))) <$> l.*1 = l.
Proof.
  induction 1 as [|[key p] l Hkey _ IH]; [done|].
  csimpl in *. by rewrite Hkey, IH.
Qed.

(** The pairs of the query text, as [stringify] lays them out. *)
Lemma encode_in_key_order P :
  ∃ entries,
    segments (encode P) = map (λ kv, pair_text kv.1 kv.2) entries
    ∧ entries ≡ₚ map_to_list (kept P)
    ∧ StronglySorted key_le entries.*1.
Proof.
  set (options := {| skipEmptyString := true; skipNull := true |}).
  set (keys := merge_sort key_le (map_to_list (kept P)).*1).
  set (entry := λ key : string, (key, default PNull (P !! key))).
  assert (Hentries : entry <$> (map_to_list (kept P)).*1 = map_to_list (kept P)).
  { apply entries_of_keys, Forall_forall.
    intros [key p] Hkv. by apply kept_lookup in Hkv as [? _]. }
  assert (Hperm : map entry keys ≡ₚ map_to_list (kept P)).
  { transitivity (entry <$> (map_to_list (kept P)).*1); [|by rewrite Hentries].
    apply fmap_Permutation, merge_sort_Permutation. }
  assert (Htexts :
    map (λ key, stringify_key options key ((QScalar <$> P) !! key)) keys
    = map (λ kv, pair_text kv.1 kv.2) (map entry keys)).
  { rewrite <-list_fmap_compose. apply list_fmap_ext. intros i key Hi. simpl.
    assert (Hin : entry key ∈ map entry keys).
    { apply list_elem_of_fmap. exists key. split; [done|].
      by apply list_elem_of_lookup_2 in Hi. }
    rewrite Hperm in Hin. apply kept_lookup in Hin as [Hkey Hp]. simpl in *.
    rewrite lookup_fmap, Hkey in *. simpl in *. by apply stringify_key_kept. }
  exists (map entry keys). split; [|split; [done|]].
  - unfold encode, stringify. fold options. rewrite objectCopy_kept.
    rewrite map_to_list_fmap, <-list_fmap_compose.
    change (fst ∘ prod_map id QScalar) with (@fst string (param number)).
    fold keys. rewrite Htexts.
    rewrite filter_all.
    + apply segments_concat. apply Forall_forall. intros x Hx.
      apply list_elem_of_fmap in Hx as [[key p] [-> _]].
      split; [apply pair_text_nonempty|apply pair_text_free].
    + apply Forall_forall. intros x Hx.
      apply list_elem_of_fmap in Hx as [[key p] [-> _]]. apply pair_text_nonempty.
  - rewrite <-list_fmap_compose.
    change (fst ∘ entry) with (@id string). rewrite list_fmap_id.
    apply (StronglySorted_merge_sort key_le).
Qed.

(** X9. The pairs of the query text stand in strictly ascending
    order of their raw keys, compared by UTF-16 code units as
    [Array.prototype.sort] compares them: one set of parameters always
    gives one URL, and a key beyond U+FFFF comes before a key in
    U+E000..U+FFFF. *)
Theorem fetcher_query_sorted_by_key P :
  ∃ entries,
    segments (encode P) = map (λ kv, pair_text kv.1 kv.2) entries
    ∧ entries ≡ₚ map_to_list (filter (λ kv, omitted kv.2 = false) P)
    ∧ ∀ i j key key',
        i < j → entries.*1 !! i = Some key → entries.*1 !! j = Some key' →
        Unicode.units_leb (Unicode.units key) (Unicode.units key') = true
        ∧ key ≠ key'.
Proof.
  destruct (encode_in_key_order P) as (entries & Hsegments & Hperm & Hsorted).
  exists entries. split; [done|]. split; [done|].
  intros i j key key' Hij Hi Hj. split.
  - by apply (StronglySorted_lookup key_le entries.*1 i j).
  - assert (Hnodup : NoDup entries.*1).
    { rewrite Hperm. apply NoDup_fst_map_to_list. }
    intros <-. pose proof (NoDup_lookup _ _ _ _ Hnodup Hi Hj). lia.
Qed.

End UrlFacts.

(** X9 on the keys U+FF5E and U+1F4B0: the second has the smaller
    first code unit (D83D against FF5E) and comes first, though its
    bytes are the larger. *)
Example fetcher_query_astral_key_first :
  encode (number := Z) {[ "～" := PNumber 1%Z; "💰" := PNumber 2%Z ]}
  = "%F0%9F%92%B0=2&%EF%BD%9E=1".
Proof. by vm_compute. Qed.

(** X8 with the parameters [{ q: "", tag: null }]. *)
Lemma fetcher_url_bare_iff_witness :
  fetcher_url (query_parser := no_url_query) demo_config "coins/list"
    (Some {[ "q" := PString ""; "tag" := PNull ]})
  = "https://api.coingecko.com/api/v3/coins/list".
Proof.
  apply (fetcher_url_bare_iff (query_parser := no_url_query) demo_config "coins/list"
           (Some {[ "q" := PString ""; "tag" := PNull ]})).
  - split; vm_compute; reflexivity.
  - intros key p Hkey. simpl in Hkey.
    apply lookup_insert_Some in Hkey as [[_ <-]|[_ Hkey]]; [done|].
    by apply lookup_singleton_Some in Hkey as [_ <-].
Defined.

(** ** The configuration read at load time *)

Section ConfigFacts.
Context {number : Type} `{!JSNumber number}.

(** X10. A setting that is present but empty counts as missing, and
    the base URL is looked at first: without a usable base URL the
    module fails with [Could not get base url] whatever the key is;
    with one and without a usable key it fails with
    [Could not get api key]; with both it keeps exactly the two
    values of the environment. *)
Theorem load_config_cases (env : gmap string string) :
  (env !! "COINGECKO_BASE_URL" = None ∨ env !! "COINGECKO_BASE_URL" = Some "" →
   load_config env = inl (Error "Could not get base url"))
  ∧ (∀ base, env !! "COINGECKO_BASE_URL" = Some base → base ≠ "" →
       (env !! "COINGECKO_API_KEY" = None ∨ env !! "COINGECKO_API_KEY" = Some "" →
        load_config env = inl (Error "Could not get api key"))
       ∧ (∀ key, env !! "COINGECKO_API_KEY" = Some key → key ≠ "" →
            load_config env = inr {| BASE_URL := base; API_KEY := key |})).
Proof.
  unfold load_config, missing. split.
  - by intros [-> | ->].
  - intros base -> Hbase. rewrite bool_decide_eq_false_2 by done. split.
    + by intros [-> | ->].
    + intros key -> Hkey. by rewrite bool_decide_eq_false_2.
Qed.

End ConfigFacts.

(** X10 with an empty base URL and a key. *)
Lemma load_config_cases_witness :
  load_config {[ "COINGECKO_BASE_URL" := ""; "COINGECKO_API_KEY" := "CG-demo" ]}
  = inl (Error "Could not get base url").
Proof.
  apply (proj1 (load_config_cases
                  {[ "COINGECKO_BASE_URL" := ""; "COINGECKO_API_KEY" := "CG-demo" ]})).
  right. vm_compute. reflexivity.
Defined.

(** ** [formatCurrency] *)

Section FormatCurrencyFacts.
Context {number : Type} `{!JSNumber number} {intl : JSIntl number}.

Implicit Types (value : Nullable number) (digits : option number)
  (code : option string) (showSymbol : option bool).

(** X11. For [null], [undefined] and [NaN] the result is a fixed
    text, whatever [digits] and [currency] are and without a call of
    [toLocaleString]: [0.00] when [showSymbol] is [false], [$0.00]
    otherwise, dollar sign and two digits even when another currency
    or digit count was asked for. *)
Theorem formatCurrency_not_a_number value digits code showSymbol :
  not_a_number value = true →
  formatCurrency value digits code showSymbol
  = Some (if bool_decide (showSymbol = Some false) then "0.00" else "$0.00").
Proof.
  intros Hvalue. unfold formatCurrency.
  destruct value as [| |n]; simpl in Hvalue; rewrite ?Hvalue;
    by destruct showSymbol as [[]|].
Qed.

(** X12. The arguments left out: no [digits] is 2 digits, no
    [showSymbol] is [true], and no [currency], or an empty one, is
    [USD] (upper-casing leaves [USD] and the empty string as they
    are). *)
Theorem formatCurrency_defaults value digits code showSymbol :
  toUpperCase "USD" = "USD" →
  toUpperCase "" = "" →
  formatCurrency value None code showSymbol
    = formatCurrency value (Some (number_of_Z 2)) code showSymbol
  ∧ formatCurrency value digits code None
    = formatCurrency value digits code (Some true)
  ∧ formatCurrency value digits None showSymbol
    = formatCurrency value digits (Some "USD") showSymbol
  ∧ formatCurrency value digits (Some "") showSymbol
    = formatCurrency value digits (Some "USD") showSymbol.
Proof.
  intros Husd Hempty. unfold formatCurrency, currency_code.
  rewrite Husd, Hempty. by repeat split.
Qed.

(** X13. The currency code is read without regard to case:
    [currency] and its upper-casing give the same result (upper-casing
    twice is upper-casing once). *)
Theorem formatCurrency_currency_case value digits c showSymbol :
  toUpperCase (toUpperCase c) = toUpperCase c →
  formatCurrency value digits (Some c) showSymbol
  = formatCurrency value digits (Some (toUpperCase c)) showSymbol.
Proof.
  intros Hupper. unfold formatCurrency, currency_code. by rewrite Hupper.
Qed.

(** X14. With [showSymbol] [false] the currency plays no part: any
    two currency arguments give the same result. *)
Theorem formatCurrency_plain_ignores_currency value digits code code' :
  formatCurrency value digits code (Some false)
  = formatCurrency value digits code' (Some false).
Proof. reflexivity. Qed.

End FormatCurrencyFacts.

(** X11 at [formatCurrency(null, 4, 'eur')]. *)
Lemma formatCurrency_not_a_number_witness :
  formatCurrency (intl := demo_intl) Null (Some 4%Z) (Some "eur") None
  = Some "$0.00".
Proof.
  apply (formatCurrency_not_a_number (intl := demo_intl)
           Null (Some 4%Z) (Some "eur") None).
  reflexivity.
Defined.

(** X12 at the value 7. *)
Lemma formatCurrency_defaults_witness :
  formatCurrency (intl := demo_intl) (Value 7%Z) None None None
    = formatCurrency (intl := demo_intl) (Value 7%Z) (Some 2%Z) None None
  ∧ formatCurrency (intl := demo_intl) (Value 7%Z) None None None
    = formatCurrency (intl := demo_intl) (Value 7%Z) None None (Some true)
  ∧ formatCurrency (intl := demo_intl) (Value 7%Z) None None None
    = formatCurrency (intl := demo_intl) (Value 7%Z) None (Some "USD") None
  ∧ formatCurrency (intl := demo_intl) (Value 7%Z) None (Some "") None
    = formatCurrency (intl := demo_intl) (Value 7%Z) None (Some "USD") None.
Proof.
  apply (formatCurrency_defaults (intl := demo_intl) (Value 7%Z) None None None).
  - reflexivity.
  - reflexivity.
Defined.

(** X13 at [formatCurrency(7, 2, 'eur')]. *)
Lemma formatCurrency_currency_case_witness :
  formatCurrency (intl := demo_intl) (Value 7%Z) (Some 2%Z) (Some "eur") None
  = formatCurrency (intl := demo_intl) (Value 7%Z) (Some 2%Z) (Some "EUR") None.
Proof.
  apply (formatCurrency_currency_case (intl := demo_intl)
           (Value 7%Z) (Some 2%Z) "eur" None).
  reflexivity.
Defined.

(** ** [TrendingCoin] *)

Section TrendingCoinFacts.
Context {number : Type} `{!JSNumber number} {query_parser : QueryParser number}.
Import Str StrFacts.

(** X15. On a base URL without [?] and [#], [TrendingCoin] makes
    exactly one request, whatever the transport answers: a GET of the
    base URL followed by [//search/trending] (the endpoint it passes
    starts with a slash and [fetcher] adds one), with no query, to be
    revalidated after 300 seconds. *)
Theorem TrendingCoin_fetch_request (transport : Transport number) (config : Config) :
  plain (BASE_URL config) →
  ∃ init,
    (run transport (TrendingCoin_fetch config)).1
      = [(BASE_URL config +:+ "//search/trending", init)]
    ∧ request_method init = "GET"
    ∧ init_next_revalidate init = number_of_Z 300.
Proof.
  intros [Hquery Hhash]. unfold TrendingCoin_fetch.
  rewrite run_fetcher. cbv zeta. rewrite fetcher_url_plain.
  - exists (fetcher_init config (number_of_Z 300)). split; [|done]. simpl.
    change (encode ∅) with "". simpl. by rewrite app_empty_r.
  - split; by rewrite occurs_app, ?Hquery, ?Hhash.
Qed.

(** X16. The table gets the first six coins, in their order, and all
    of them when there are fewer: never more than six rows, and the
    empty list for no coins. *)
Theorem TrendingCoin_data_first_six {A} (coins : list A) :
  length (TrendingCoin_data coins) = min 6 (length coins)
  ∧ ∀ i, TrendingCoin_data coins !! i = if decide (i < 6) then coins !! i else None.
Proof.
  unfold TrendingCoin_data, array_truthy. split.
  - apply length_take.
  - intros i. case_decide.
    + by apply lookup_take_lt.
    + apply lookup_take_ge. lia.
Qed.

End TrendingCoinFacts.

(** X15 at the configuration of the examples. *)
Lemma TrendingCoin_fetch_request_witness :
  ∃ init,
    (run (answering {| status := 200; statusText := "OK"; body_json := Some (JArray []) |})
         (TrendingCoin_fetch (query_parser := no_url_query) demo_config)).1
      = [("https://api.coingecko.com/api/v3//search/trending", init)]
    ∧ request_method init = "GET"
    ∧ init_next_revalidate init = 300%Z.
Proof.
  destruct (TrendingCoin_fetch_request (query_parser := no_url_query)
              (answering {| status := 200; statusText := "OK";
                            body_json := Some (JArray []) |})
              demo_config) as (init & Hcalls & Hrest).
  - split; vm_compute; reflexivity.
  - exists init. split; [|exact Hrest]. rewrite Hcalls. reflexivity.
Defined.
